(** * Wine downloader: catalog query and installation pipeline

    A shallow embedding of [src/backend/wine/manager/downloader/main.ts]:
    [getAvailableVersions] and [installVersion].

    Files on disk are a finite map from path strings to nodes.  The map is
    keyed by the paths the pipeline names (the installation directory, the
    archive file, the install subdirectory and its backup); what lies inside
    a directory is carried by its node.  Paths are compared as the strings
    the source builds, without normalisation.

    The collaborators that live outside this file of the repository (the HTTP
    client, [downloadFile], [unzipFile], [unlinkFile], [getFolderSize], the
    SHA-512 hash) are fields of a [world] record, so every theorem
    quantifies over what they may answer. *)

From stdpp Require Import base option list strings gmap fin_maps.
From Stdlib Require Import Ascii String.

Local Open Scope string_scope.
Local Open Scope list_scope.

(** ** JavaScript string helpers *)

Module JsString.

(** [is_prefix p s]: [s.startsWith(p)]. *)
Fixpoint is_prefix (p s : string) : bool :=
  match p, s with
  | EmptyString, _ => true
  | String a p', String b s' => Ascii.eqb a b && is_prefix p' s'
  | String _ _, EmptyString => false
  end.

(** [includes s t]: [s.includes(t)], true when [t] occurs in [s]. *)
Fixpoint includes (s t : string) : bool :=
  is_prefix t s ||
  match s with
  | EmptyString => false
  | String _ s' => includes s' t
  end.

(** [last_segment s]: [s.split('/').slice(-1)[0]], the text after the
    last slash (all of [s] when it has none). *)
Fixpoint last_segment_from (acc s : string) : string :=
  match s with
  | EmptyString => acc
  | String c s' =>
      if Ascii.eqb c "/" then last_segment_from EmptyString s'
      else last_segment_from (acc +:+ String c EmptyString) s'
  end.

Definition last_segment (s : string) : string :=
  last_segment_from EmptyString s.

(** [dirname s]: the text before the last slash. *)
Fixpoint dirname_from (done pending s : string) : string :=
  match s with
  | EmptyString => done
  | String c s' =>
      if Ascii.eqb c "/"
      then dirname_from (done +:+ pending) (String c EmptyString) s'
      else dirname_from done (pending +:+ String c EmptyString) s'
  end.

Definition dirname (s : string) : string :=
  dirname_from EmptyString EmptyString s.

(** JavaScript truthiness of a string: the empty string is falsy. *)
Definition truthy (s : string) : bool :=
  match s with EmptyString => false | String _ _ => true end.

End JsString.

(** ** The file system *)

(** The interior of a directory: relative file names with their data. *)
Definition tree := list (string * string).

Inductive node :=
| File (data : string)
| Dir (entries : tree).

Inductive errno := ENOENT | EEXIST | ENOTDIR | EISDIR | ENOTEMPTY.

(** ** Data of the source *)

(** [VersionInfo] of [common/types]: the fields [main.ts] reads and writes.
    [checksum] is optional there; [download] is a string. *)
Record VersionInfo := mkVersionInfo {
  version : string;
  type_ : string;
  download : string;
  checksum : option string;
  disksize : nat
}.

Definition set_disksize (v : VersionInfo) (n : nat) : VersionInfo :=
  {| version := version v; type_ := type_ v; download := download v;
     checksum := checksum v; disksize := n |}.

(** The errors [installVersion] can reject with, one constructor per throw
    site, and the exceptions of the primitives it calls. *)
Inductive error :=
| HttpError (url : string)                      (* axios.get rejects *)
| FsError (code : errno) (call path : string)   (* graceful-fs throws *)
| Rejection (reason : string)                   (* downloadFile / unzipFile reject with a string *)
| InstallDirMissing (dir : string)              (* line 214 *)
| InstallDirNotDirectory (dir : string)         (* line 216 *)
| NoDownloadLink (ver : string)                 (* line 221 *)
| Aborted (ver : string)                        (* lines 196-199, 205 *)
| DownloadFailed (ver cause : string)           (* line 270 *)
| ChecksumFailed                                (* line 284 *)
| MkdirFailed (dir : string) (cause : error)    (* line 299 *)
| UnzipFailed (file cause : string).            (* line 326 *)

(** [error.name]: only the abort handler renames its error. *)
Definition error_name (e : error) : string :=
  match e with
  | Aborted _ => "AbortError"
  | _ => "Error"
  end.

(** The points of the pipeline a run passes, in source order of their
    lines: the manifest request (189), the target checks (213-217), the
    download-link check (219), the already-installed check (225), the
    download (259), the hash comparison (276-285), the directory creation
    or backup rename (293-304), the extraction (306) and the final
    clean-up (332-338). *)
Inductive event :=
| EvFetchManifest
| EvCheckInstallDir
| EvCheckDownloadLink
| EvCheckInstalled
| EvDownload
| EvChecksum
| EvPrepareTarget
| EvExtract
| EvCommit.

Global Instance event_eq_dec : EqDecision event.
Proof. solve_decision. Defined.

Record state := mkState {
  fs : gmap string node;
  trace : list event;
  warnings : list string
}.

Definition init (disk : gmap string node) : state :=
  {| fs := disk; trace := []; warnings := [] |}.

(** ** A state and exception monad

    A computation runs on a state and returns either the thrown error or a
    value, with the state it left behind: what is on disk after a
    rejection matters as much as after success. *)

Definition M (A : Type) : Type := state → (error + A) * state.

Global Instance M_ret : MRet M := λ A a s, (inr a, s).

Global Instance M_bind : MBind M := λ A B f m s,
  match m s with
  | (inl e, s') => (inl e, s')
  | (inr a, s') => f a s'
  end.

Definition throw {A} (e : error) : M A := λ s, (inl e, s).

(** [try { m } catch (error) { h error }]. *)
Definition try_catch {A} (m : M A) (h : error → M A) : M A := λ s,
  match m s with
  | (inl e, s') => h e s'
  | (inr a, s') => (inr a, s')
  end.

(** [m.catch((error: string) => h error)] on a promise that rejects with
    a string. *)
Definition catch_rejection {A} (m : M A) (h : string → M A) : M A :=
  try_catch m (λ e, match e with Rejection msg => h msg | _ => throw e end).

(** [if (b) { m }] without an else branch. *)
Definition when (b : bool) (m : M unit) : M unit :=
  if b then m else mret ().

Definition get_fs : M (gmap string node) := λ s, (inr (fs s), s).

Definition put_fs (disk : gmap string node) : M unit := λ s,
  (inr (), {| fs := disk; trace := trace s; warnings := warnings s |}).

Definition emit (e : event) : M unit := λ s,
  (inr (), {| fs := fs s; trace := trace s ++ [e]; warnings := warnings s |}).

Definition logWarning (msg : string) : M unit := λ s,
  (inr (), {| fs := fs s; trace := trace s; warnings := warnings s ++ [msg] |}).

(** ** graceful-fs

    First what each call does to the disk, then the calls themselves. *)

Module Fs.

Definition is_file (disk : gmap string node) (p : string) : bool :=
  match disk !! p with Some (File _) => true | _ => false end.

Definition exists_ (disk : gmap string node) (p : string) : bool :=
  match disk !! p with Some _ => true | None => false end.

Definition is_directory (disk : gmap string node) (p : string)
    : errno + bool :=
  match disk !! p with
  | None => inl ENOENT
  | Some (File _) => inr false
  | Some (Dir _) => inr true
  end.

Definition read (disk : gmap string node) (p : string) : errno + string :=
  match disk !! p with
  | None => inl ENOENT
  | Some (Dir _) => inl EISDIR
  | Some (File data) => inr data
  end.

(** Not recursive: the path must be free and its parent a directory. *)
Definition mkdir (disk : gmap string node) (p : string)
    : errno + gmap string node :=
  match disk !! p with
  | Some _ => inl EEXIST
  | None =>
      match disk !! JsString.dirname p with
      | None => inl ENOENT
      | Some (File _) => inl ENOTDIR
      | Some (Dir _) => inr (<[p := Dir []]> disk)
      end
  end.

(** [a] must exist; an existing [b] is replaced when it is a file (by a
    file) or an empty directory (by a directory). *)
Definition rename (disk : gmap string node) (a b : string)
    : errno + gmap string node :=
  match disk !! a with
  | None => inl ENOENT
  | Some n =>
      match n, disk !! b with
      | _, None
      | File _, Some (File _)
      | Dir _, Some (Dir []) => inr (<[b := n]> (delete a disk))
      | File _, Some (Dir _) => inl EISDIR
      | Dir _, Some (File _) => inl ENOTDIR
      | Dir _, Some (Dir (_ :: _)) => inl ENOTEMPTY
      end
  end.

(** Recursive removal without [force]: a missing path is an error. *)
Definition rm (disk : gmap string node) (p : string)
    : errno + gmap string node :=
  match disk !! p with
  | None => inl ENOENT
  | Some _ => inr (delete p disk)
  end.

(** Removal of a single file; a directory or a missing path is left as
    it is. *)
Definition unlink (disk : gmap string node) (p : string)
    : gmap string node :=
  match disk !! p with
  | Some (File _) => delete p disk
  | _ => disk
  end.

End Fs.

(** Run a disk operation that may fail with an [errno]. *)
Definition fs_call {A} (call path : string) (r : errno + A) : M A :=
  match r with
  | inl code => throw (FsError code call path)
  | inr a => mret a
  end.

Definition existsSync (p : string) : M bool :=
  disk ← get_fs; mret (Fs.exists_ disk p).

(** [statSync(p).isDirectory()]. *)
Definition statSync_isDirectory (p : string) : M bool :=
  disk ← get_fs; fs_call "stat" p (Fs.is_directory disk p).

Definition readFileSync (p : string) : M string :=
  disk ← get_fs; fs_call "open" p (Fs.read disk p).

(** [mkdirSync(p)]. *)
Definition mkdirSync (p : string) : M unit :=
  disk ← get_fs; disk' ← fs_call "mkdir" p (Fs.mkdir disk p); put_fs disk'.

(** [renameSync(a, b)]. *)
Definition renameSync (a b : string) : M unit :=
  disk ← get_fs; disk' ← fs_call "rename" a (Fs.rename disk a b); put_fs disk'.

(** [rmSync(p, { recursive: true })]. *)
Definition rmSync_recursive (p : string) : M unit :=
  disk ← get_fs; disk' ← fs_call "rm" p (Fs.rm disk p); put_fs disk'.

(** ** The collaborators *)

(** What one call of the archive fetcher does: it writes the whole archive,
    or it rejects with a reason and may leave the bytes written so far. *)
Inductive download_outcome :=
| Downloaded (data : string)
| DownloadRejected (reason : string) (partial : option string).

(** What one call of the archive extractor does: it fills the target
    directory, or it rejects with a reason, having written [partial] into
    the target directory or (with [None]) not having touched the disk. *)
Inductive unzip_outcome :=
| Unzipped (entries : tree)
| UnzipRejected (reason : string) (partial : option tree).

(** What the outside answers during one run: the HTTP client, the archive
    fetcher and the extractor (each called at most once in a run), the
    measured size of what is at a path, whether a file can be removed,
    and the SHA-512 hex digest. *)
Record world := mkWorld {
  http_get : string → option string;
  fetch : string → download_outcome;
  extract : string → unzip_outcome;
  folder_size : option node → nat;
  can_unlink : string → bool;
  sha512_hex : string → string
}.

(** [axios.default.get(url, { responseType: 'text' })).data]. *)
Definition axios_get (w : world) (url : string) : M string :=
  match http_get w url with
  | Some text => mret text
  | None => throw (HttpError url)
  end.

(** Modelled from the spec: [downloadFile] of [backend/utils] is not part of
    this file.  It streams the remote file into the target parent
    directory, under the tail of the download URL, and rejects with a
    string. *)
Definition downloadFile (w : world) (url dest : string) : M unit :=
  disk ← get_fs;
  let file := dest +:+ "/" +:+ JsString.last_segment url in
  match fetch w url with
  | Downloaded data => put_fs (<[file := File data]> disk)
  | DownloadRejected reason partial =>
      match partial with
      | Some data => put_fs (<[file := File data]> disk)
      | None => mret ()
      end;;
      throw (Rejection reason)
  end.

(** Modelled from the spec: [unzipFile] of [./utilities] is not part of this
    file.  It unpacks the archive into the target directory, touches
    nothing outside its target, and rejects with a string. *)
Definition unzipFile (w : world) (filePath unzipDir : string) : M unit :=
  disk ← get_fs;
  match extract w filePath with
  | Unzipped entries => put_fs (<[unzipDir := Dir entries]> disk)
  | UnzipRejected reason partial =>
      match partial with
      | Some entries => put_fs (<[unzipDir := Dir entries]> disk)
      | None => mret ()
      end;;
      throw (Rejection reason)
  end.

(** Modelled from the spec: [unlinkFile] of [./utilities] is not part of
    this file.  It deletes a single file, best-effort: nothing happens when
    the file is absent, and a removal that fails is not raised. *)
Definition unlinkFile (w : world) (p : string) : M unit :=
  disk ← get_fs;
  if can_unlink w p then put_fs (Fs.unlink disk p) else mret ().

(** Modelled from the spec: [getFolderSize] of [./utilities] is not part of
    this file.  It measures what is on disk at the path. *)
Definition getFolderSize (w : world) (p : string) : M nat :=
  disk ← get_fs; mret (folder_size w (disk !! p)).

(** ** installVersion *)

(** Lines 184-186, and the backup path of lines 303, 323 and 333. *)
Definition tarFile (versionInfo : VersionInfo) (installDir : string) : string :=
  installDir +:+ "/" +:+ JsString.last_segment (download versionInfo).

Definition installSubDir (versionInfo : VersionInfo) (installDir : string) : string :=
  installDir +:+ "/" +:+ version versionInfo.

Definition backupDir (versionInfo : VersionInfo) (installDir : string) : string :=
  installSubDir versionInfo installDir +:+ "_backup".

(** The warning of line 288. *)
Definition noChecksumWarning (versionInfo : VersionInfo) : string :=
  "No checksum provided. Download of " +:+ version versionInfo
  +:+ " could be invalid!".

(** Lines 195-206. *)
Definition abortHandler (w : world) (versionInfo : VersionInfo)
    (installDir : string) : M unit :=
  unlinkFile w (tarFile versionInfo installDir);;
  present ← existsSync (installSubDir versionInfo installDir);
  when present (rmSync_recursive (installSubDir versionInfo installDir));;
  throw (Aborted (version versionInfo)).

(** Lines 171-340.  The progress callback and the abort signal are handed
    to the collaborators unchanged; an abort reaches this function as a
    rejection whose text includes [AbortError]. *)
Definition installVersion (w : world) (versionInfo : VersionInfo)
    (installDir : string) (overwrite : bool) : M (VersionInfo * string) :=
  let tarFile := tarFile versionInfo installDir in
  let installSubDir := installSubDir versionInfo installDir in
  sourceChecksum ←
    match checksum versionInfo with
    | Some url =>
        if JsString.truthy url
        then emit EvFetchManifest;; text ← axios_get w url; mret (Some text)
        else mret None
    | None => mret None
    end;
  let abortHandler := abortHandler w versionInfo installDir in
  (* Check if installDir exist *)
  emit EvCheckInstallDir;;
  dirExists ← existsSync installDir;
  (if negb dirExists then throw (InstallDirMissing installDir)
   else
     isDir ← statSync_isDirectory installDir;
     when (negb isDir) (throw (InstallDirNotDirectory installDir)));;
  emit EvCheckDownloadLink;;
  when (negb (JsString.truthy (download versionInfo)))
    (throw (NoDownloadLink (version versionInfo)));;
  (* Check if it already exist *)
  emit EvCheckInstalled;;
  installed ← existsSync installSubDir;
  if installed && negb overwrite then
    logWarning
      (version versionInfo +:+ " is already installed. Skip installing!");;
    size ← getFolderSize w installSubDir;
    mret (set_disksize versionInfo size, installSubDir)
  else
    (* remove tarFile if still exist *)
    unlinkFile w tarFile;;
    (* Download *)
    emit EvDownload;;
    catch_rejection (downloadFile w (download versionInfo) installDir)
      (λ error,
         when (JsString.includes error "AbortError") abortHandler;;
         unlinkFile w tarFile;;
         throw (DownloadFailed (version versionInfo) error));;
    (* Check if download checksum is correct *)
    emit EvChecksum;;
    fileBuffer ← readFileSync tarFile;
    let downloadChecksum := sha512_hex w fileBuffer in
    match sourceChecksum with
    | Some text =>
        if JsString.truthy text then
          when (negb (JsString.includes text downloadChecksum))
            (unlinkFile w tarFile;;
             throw ChecksumFailed)
        else logWarning (noChecksumWarning versionInfo)
    | None => logWarning (noChecksumWarning versionInfo)
    end;;
    emit EvPrepareTarget;;
    (if negb overwrite then
       try_catch (mkdirSync installSubDir)
         (λ error,
            unlinkFile w tarFile;;
            throw (MkdirFailed installSubDir error))
     else
       (* backup old folder *)
       renameSync installSubDir (installSubDir +:+ "_backup"));;
    emit EvExtract;;
    catch_rejection (unzipFile w tarFile installSubDir)
      (λ error,
         when (JsString.includes error "AbortError") abortHandler;;
         (* remove artefacts *)
         rmSync_recursive installSubDir;;
         unlinkFile w tarFile;;
         (* restore backup *)
         when overwrite
           (renameSync (installSubDir +:+ "_backup") installSubDir);;
         throw (UnzipFailed (JsString.last_segment tarFile) error));;
    (* clean up *)
    emit EvCommit;;
    when overwrite (rmSync_recursive (installSubDir +:+ "_backup"));;
    unlinkFile w tarFile;;
    (* resolve with disksize *)
    size ← getFolderSize w installSubDir;
    mret (set_disksize versionInfo size, installSubDir).

(** ** getAvailableVersions *)

(** The repository keys of [common/types]; [OtherRepository] stands for a
    key outside the enum, which the [default] branch of the switch
    receives. *)
Inductive Repositorys :=
| WINEGE
| PROTONGE
| PROTON
| WINELUTRIS
| WINECROSSOVER
| WINESTAGINGMACOS
| OtherRepository (key : string).

Inductive log_entry :=
| LoggedError (error : string)
| LoggedWarning (msg : string).

Section Catalog.

(** The URL constants of [./constants]. *)
Variables WINEGE_URL PROTONGE_URL PROTON_URL : string.
Variables WINELUTRIS_URL WINECROSSOVER_URL WINESTAGINGMACOS_URL : string.

(** [fetchReleases({ url, type, count })] of [./utilities]: it resolves
    with the releases of one repository or rejects with an error. *)
Variable fetchReleases : string → string → nat → string + list VersionInfo.

(** The [releases] array and the logger, as the loop updates them. *)
Definition catalog : Type := list VersionInfo * list log_entry.

(** [await fetchReleases(...).then(push).catch(logError)]. *)
Definition fetchInto (url type : string) (count : nat) (acc : catalog)
    : catalog :=
  match fetchReleases url type count with
  | inr fetchedReleases => (acc.1 ++ fetchedReleases, acc.2)
  | inl error => (acc.1, acc.2 ++ [LoggedError error])
  end.

(** The body of the loop: the switch of lines 52-144. *)
Definition visit (count : nat) (acc : catalog) (repo : Repositorys)
    : catalog :=
  match repo with
  | WINEGE => fetchInto WINEGE_URL "Wine-GE" count acc
  | PROTONGE => fetchInto PROTONGE_URL "Proton-GE" count acc
  | PROTON => fetchInto PROTON_URL "Proton" count acc
  | WINELUTRIS => fetchInto WINELUTRIS_URL "Wine-Lutris" count acc
  | WINECROSSOVER => fetchInto WINECROSSOVER_URL "Wine-Crossover" count acc
  | WINESTAGINGMACOS =>
      fetchInto WINESTAGINGMACOS_URL "Wine-Staging-macOS" count acc
  | OtherRepository key =>
      (acc.1,
       acc.2 ++ [LoggedWarning
         ("Unknown and not supported repository key passed! Skip fetch for "
          +:+ key)])
  end.

(** Lines 45-148; the defaults of the destructured argument are
    [[WINEGE; PROTONGE]] and [100]. *)
Definition getAvailableVersions (repositorys : list Repositorys)
    (count : nat) : catalog :=
  foldl (visit count) ([], []) repositorys.

(** What one repository answers to the query: [None] for a key the
    switch does not know. *)
Definition answer (count : nat) (repo : Repositorys)
    : option (string + list VersionInfo) :=
  match repo with
  | WINEGE => Some (fetchReleases WINEGE_URL "Wine-GE" count)
  | PROTONGE => Some (fetchReleases PROTONGE_URL "Proton-GE" count)
  | PROTON => Some (fetchReleases PROTON_URL "Proton" count)
  | WINELUTRIS => Some (fetchReleases WINELUTRIS_URL "Wine-Lutris" count)
  | WINECROSSOVER =>
      Some (fetchReleases WINECROSSOVER_URL "Wine-Crossover" count)
  | WINESTAGINGMACOS =>
      Some (fetchReleases WINESTAGINGMACOS_URL "Wine-Staging-macOS" count)
  | OtherRepository _ => None
  end.

(** The releases a repository contributes: those of a fetch that
    succeeded, none otherwise. *)
Definition contribution (count : nat) (repo : Repositorys)
    : list VersionInfo :=
  match answer count repo with
  | Some (inr fetchedReleases) => fetchedReleases
  | _ => []
  end.

End Catalog.

(** ** Vocabulary of the statements *)

(** The order in which a run passes the points of the pipeline, as the
    source has it: the manifest is requested first, when the record
    carries a checksum URL. *)
Definition pipeline_order (versionInfo : VersionInfo) : list event :=
  match checksum versionInfo with
  | Some url => if JsString.truthy url then [EvFetchManifest] else []
  | None => []
  end ++
  [EvCheckInstallDir; EvCheckDownloadLink; EvCheckInstalled; EvDownload;
   EvChecksum; EvPrepareTarget; EvExtract; EvCommit].

(** The phases of the specification and the phase each point belongs to
    there: the manifest request is part of the checksum phase. *)
Inductive phase := Validate | SkipCheck | Download | Checksum | Extract | Commit.

Definition phase_of (e : event) : phase :=
  match e with
  | EvCheckInstallDir | EvCheckDownloadLink => Validate
  | EvCheckInstalled => SkipCheck
  | EvDownload => Download
  | EvFetchManifest | EvChecksum => Checksum
  | EvPrepareTarget | EvExtract => Extract
  | EvCommit => Commit
  end.

Definition phase_rank (p : phase) : nat :=
  match p with
  | Validate => 0
  | SkipCheck => 1
  | Download => 2
  | Checksum => 3
  | Extract => 4
  | Commit => 5
  end.

Fixpoint nondecreasing (l : list nat) : bool :=
  match l with
  | a :: (b :: _) as rest => (a <=? b)%nat && nondecreasing rest
  | _ => true
  end.

(** A trace respects validate, skip-check, download, checksum, extract,
    commit when the phases of its points never step back. *)
Definition in_phase_order (t : list event) : bool :=
  nondecreasing ((λ e, phase_rank (phase_of e)) <$> t).

(** The errors the pipeline raises itself once the download has started;
    exceptions of the file system calls it does not catch are not among
    them. *)
Definition pipeline_error (e : error) : bool :=
  match e with
  | Aborted _ | DownloadFailed _ _ | ChecksumFailed
  | MkdirFailed _ _ | UnzipFailed _ _ => true
  | _ => false
  end.

Definition settled {A} (r : error + A) : bool :=
  match r with
  | inr _ => true
  | inl e => pipeline_error e
  end.

(** The manifest request of a record succeeds (or is not made). *)
Definition manifest_reachable (w : world) (versionInfo : VersionInfo) : Prop :=
  ∀ url, checksum versionInfo = Some url → JsString.truthy url = true →
         is_Some (http_get w url).

(** ** Scenarios

    Records, disks and worlds for the runs that are evaluated below. *)

Module Scenario.

Definition release (url : string) (sum : option string) : VersionInfo :=
  {| version := "Wine-GE-8"; type_ := "Wine-GE"; download := url;
     checksum := sum; disksize := 0 |}.

Definition plain : VersionInfo :=
  release "https://example.org/releases/wine-ge-8.tar.xz" None.

Definition summed : VersionInfo :=
  release "https://example.org/releases/wine-ge-8.tar.xz"
    (Some "https://example.org/releases/wine-ge-8.sha512sum").

Definition linkless : VersionInfo :=
  release "" (Some "https://example.org/releases/wine-ge-8.sha512sum").

Definition installDir : string := "/tools".

Definition emptyTarget : gmap string node := {[ "/tools" := Dir [] ]}.

Definition oldInstall : node := Dir [("marker", "old")].

Definition installed : gmap string node :=
  <["/tools/Wine-GE-8" := oldInstall]> emptyTarget.

Definition size_of (n : option node) : nat :=
  match n with
  | Some (Dir entries) => List.length entries
  | _ => 0
  end.

Definition mk (manifest : option string) (dl : download_outcome)
    (uz : unzip_outcome) : world :=
  {| http_get := λ _, manifest; fetch := λ _, dl; extract := λ _, uz;
     folder_size := size_of; can_unlink := λ _, true;
     sha512_hex := λ _, "cf83e1357eefb8bd" |}.

Definition unpacked : unzip_outcome := Unzipped [("bin/wine", "ELF")].

Definition fine : world :=
  mk (Some "cf83e1357eefb8bd  wine-ge-8.tar.xz") (Downloaded "ARCHIVE")
    unpacked.

Definition manifestUnreachable : world :=
  mk None (Downloaded "ARCHIVE") unpacked.

Definition manifestEmpty : world :=
  mk (Some "") (Downloaded "ARCHIVE") unpacked.

Definition manifestWrong : world :=
  mk (Some "0000000000000000  wine-ge-8.tar.xz") (Downloaded "ARCHIVE")
    unpacked.

Definition downloadAborted : world :=
  mk None (DownloadRejected "AbortError: The operation was aborted"
             (Some "ARCH"))
    unpacked.

Definition extractAborted : world :=
  mk None (Downloaded "ARCHIVE")
    (UnzipRejected "AbortError: The operation was aborted"
       (Some [("bin/wine", "EL")])).

Definition extractFailsMidway : world :=
  mk None (Downloaded "ARCHIVE")
    (UnzipRejected "tar: Unexpected EOF in archive"
       (Some [("bin/wine", "EL")])).

Definition extractFailsAtOnce : world :=
  mk None (Downloaded "ARCHIVE")
    (UnzipRejected "Archive type zip not supported!" None).

Definition kinds : list Repositorys := [WINEGE; PROTONGE; WINELUTRIS].

Definition fetchReleases (url type : string) (count : nat)
    : string + list VersionInfo :=
  if String.eqb type "Proton-GE" then inl "Error: connect ETIMEDOUT"
  else inr [release (url +:+ "/" +:+ type +:+ ".tar.xz") None].

End Scenario.

(** ** Reasoning about runs *)

(** [wp m Q s]: running [m] on [s] ends in a result and a state that [Q]
    accepts, whether [m] returns or throws. *)
Definition wp {A} (m : M A) (Q : error + A → state → Prop) (s : state)
    : Prop :=
  Q (m s).1 (m s).2.

(** ** Further vocabulary *)

(** The manifest lets the archive through: the request (when one is made)
    succeeds, and a manifest text that is not empty includes the digest
    of the archive. *)
Definition manifest_accepts (w : world) (versionInfo : VersionInfo)
    (data : string) : Prop :=
  ∀ url, checksum versionInfo = Some url → JsString.truthy url = true →
    ∃ text, http_get w url = Some text
            ∧ (JsString.truthy text = true →
               JsString.includes text (sha512_hex w data) = true).

(** ** getProgress *)

(** [ProgressInfo] of [common/types], over whatever the numbers are. *)
Record ProgressInfo (number : Type) := mkProgressInfo {
  percentage : number;
  eta : string;
  avgSpeed : number
}.

Arguments mkProgressInfo {number}.
Arguments percentage {number}.
Arguments eta {number}.
Arguments avgSpeed {number}.

(** Lines 240-256: the state and the progress record handed to
    [onProgress].  [calculateEta] of [backend/utils] answers with a text
    or with nothing. *)
Definition getProgress {number : Type}
    (calculateEta : number → number → nat → option string)
    (versionInfo : VersionInfo)
    (downloadedBytes downloadSpeed progress : number)
    : string * ProgressInfo number :=
  let eta := calculateEta downloadedBytes downloadSpeed
               (disksize versionInfo) in
  ("downloading",
   {| percentage := progress;
      eta := match eta with
             | Some text => if JsString.truthy text then text else "00:00:00"
             | None => "00:00:00"
             end;
      avgSpeed := downloadSpeed |}).

(** ** More scenarios *)

Module ScenarioMore.

Definition downloadFails : world :=
  Scenario.mk None
    (DownloadRejected "Error: read ECONNRESET" (Some "ARCH"))
    Scenario.unpacked.

Definition extractAbortedAtOnce : world :=
  Scenario.mk None (Downloaded "ARCHIVE")
    (UnzipRejected "AbortError: The operation was aborted" None).



Definition staleBackup : node := Dir [("marker", "older")].

(** An install with the backup an earlier run left beside it. *)
Definition cluttered : gmap string node :=
  <["/tools/Wine-GE-8_backup" := staleBackup]> Scenario.installed.

Definition unknownKinds : list Repositorys :=
  [WINEGE; OtherRepository "Wine-Foo"; WINELUTRIS].

End ScenarioMore.

(** * Proofs *)

(** ** The catalog query *)

Section CatalogFacts.

Variables WINEGE_URL PROTONGE_URL PROTON_URL : string.
Variables WINELUTRIS_URL WINECROSSOVER_URL WINESTAGINGMACOS_URL : string.
Variable fetchReleases : string → string → nat → string + list VersionInfo.

Local Abbreviation visit_ :=
  (visit WINEGE_URL PROTONGE_URL PROTON_URL WINELUTRIS_URL
     WINECROSSOVER_URL WINESTAGINGMACOS_URL fetchReleases).
Local Abbreviation answer_ :=
  (answer WINEGE_URL PROTONGE_URL PROTON_URL WINELUTRIS_URL
     WINECROSSOVER_URL WINESTAGINGMACOS_URL fetchReleases).
Local Abbreviation contribution_ :=
  (contribution WINEGE_URL PROTONGE_URL PROTON_URL WINELUTRIS_URL
     WINECROSSOVER_URL WINESTAGINGMACOS_URL fetchReleases).
Local Abbreviation getAvailableVersions_ :=
  (getAvailableVersions WINEGE_URL PROTONGE_URL PROTON_URL WINELUTRIS_URL
     WINECROSSOVER_URL WINESTAGINGMACOS_URL fetchReleases).

Lemma visit_releases count acc repo :
  (visit_ count acc repo).1 = acc.1 ++ contribution_ count repo.
Proof.
  destruct repo; unfold visit, fetchInto, contribution, answer;
    try (destruct (fetchReleases _ _ _); simpl; by rewrite ?app_nil_r).
  simpl. by rewrite app_nil_r.
Qed.

Lemma visit_log_grows count acc repo entry :
  entry ∈ acc.2 → entry ∈ (visit_ count acc repo).2.
Proof.
  intros Hin.
  destruct repo; unfold visit, fetchInto;
    try (destruct (fetchReleases _ _ _); simpl; set_solver).
  simpl. set_solver.
Qed.

Lemma visit_logs_failure count acc repo error :
  answer_ count repo = Some (inl error) →
  LoggedError error ∈ (visit_ count acc repo).2.
Proof.
  destruct repo; unfold visit, fetchInto, answer; intros H;
    simplify_eq; rewrite H; simpl; set_solver.
Qed.

Lemma foldl_visit_releases count repos acc :
  (foldl (visit_ count) acc repos).1
  = acc.1 ++ List.concat (contribution_ count <$> repos).
Proof.
  revert acc. induction repos as [|repo repos IH]; intros acc; simpl.
  - by rewrite app_nil_r.
  - by rewrite IH, visit_releases, <- app_assoc.
Qed.

Lemma foldl_visit_log_grows count repos acc entry :
  entry ∈ acc.2 → entry ∈ (foldl (visit_ count) acc repos).2.
Proof.
  revert acc. induction repos as [|repo repos IH]; intros acc Hin; simpl.
  - done.
  - by apply IH, visit_log_grows.
Qed.

Lemma foldl_visit_logs_failure count repos acc repo error :
  repo ∈ repos →
  answer_ count repo = Some (inl error) →
  LoggedError error ∈ (foldl (visit_ count) acc repos).2.
Proof.
  revert acc. induction repos as [|r repos IH]; intros acc Hin Hfail.
  - by apply elem_of_nil in Hin.
  - simpl. apply elem_of_cons in Hin as [->|Hin].
    + by apply foldl_visit_log_grows, visit_logs_failure.
    + by apply IH.
Qed.

Lemma contribution_failed count repo error :
  answer_ count repo = Some (inl error) → contribution_ count repo = [].
Proof. unfold contribution. by intros ->. Qed.

Lemma contribution_fetched count repo fetchedReleases :
  answer_ count repo = Some (inr fetchedReleases) →
  contribution_ count repo = fetchedReleases.
Proof. unfold contribution. by intros ->. Qed.

(** C9.  A catalog query always resolves, and with exactly the releases
    of the repositories whose fetch succeeded, in the order asked: a
    repository whose fetch fails gets its error logged and contributes
    nothing, and the releases fetched from every other repository are
    still in the result. *)
Theorem getAvailableVersions_partial_failure repositorys count :
  let result := getAvailableVersions_ repositorys count in
  result.1 = List.concat (contribution_ count <$> repositorys)
  ∧ (∀ repo error,
       repo ∈ repositorys →
       answer_ count repo = Some (inl error) →
       LoggedError error ∈ result.2 ∧ contribution_ count repo = [])
  ∧ (∀ repo fetchedReleases release,
       repo ∈ repositorys →
       answer_ count repo = Some (inr fetchedReleases) →
       release ∈ fetchedReleases →
       release ∈ result.1).
Proof.
  intros result. subst result. unfold getAvailableVersions.
  assert (Hall := foldl_visit_releases count repositorys ([], [])).
  simpl in Hall. split; [exact Hall|]. split.
  - intros repo error Hin Hfail. split.
    + by eapply foldl_visit_logs_failure.
    + by eapply contribution_failed.
  - intros repo fetched release Hin Hok Hrel. rewrite Hall.
    apply list_elem_of_In, in_concat.
    exists fetched. split; [|by apply list_elem_of_In].
    apply list_elem_of_In, list_elem_of_fmap.
    exists repo. split; [|done]. symmetry. by apply contribution_fetched.
Qed.

End CatalogFacts.

(** The query of [Scenario.kinds] when the Proton-GE fetch times out. *)
Lemma getAvailableVersions_partial_failure_witness :
  let result :=
    getAvailableVersions "ge" "pge" "p" "l" "c" "m" Scenario.fetchReleases
      Scenario.kinds 100 in
  LoggedError "Error: connect ETIMEDOUT" ∈ result.2
  ∧ Scenario.release "ge/Wine-GE.tar.xz" None ∈ result.1
  ∧ Scenario.release "l/Wine-Lutris.tar.xz" None ∈ result.1
  ∧ List.length result.1 = 2.
Proof.
  pose proof (getAvailableVersions_partial_failure "ge" "pge" "p" "l" "c" "m"
                Scenario.fetchReleases Scenario.kinds 100) as (Hall & Hfail & Hok).
  split; [|split; [|split]].
  - apply (Hfail PROTONGE); [ repeat constructor | reflexivity ].
  - apply (Hok WINEGE [Scenario.release "ge/Wine-GE.tar.xz" None]);
      [ repeat constructor | reflexivity | repeat constructor ].
  - apply (Hok WINELUTRIS [Scenario.release "l/Wine-Lutris.tar.xz" None]);
      [ repeat constructor | reflexivity | repeat constructor ].
  - rewrite Hall. reflexivity.
Defined.

(** ** Rules for walking through a computation *)

Section Rules.
Context {A B : Type}.
Implicit Types (Q : error + A → state → Prop) (s : state).

Lemma wp_elim (m : M A) Q s r s' : wp m Q s → m s = (r, s') → Q r s'.
Proof. unfold wp. intros H Hrun. by rewrite Hrun in H. Qed.

Lemma wp_ret (a : A) Q s : Q (inr a) s → wp (mret a) Q s.
Proof. done. Qed.

Lemma wp_throw (e : error) Q s : Q (inl e) s → wp (throw e) Q s.
Proof. done. Qed.

Lemma wp_bind (m : M B) (f : B → M A) Q s :
  wp m (λ r s1, match r with
                | inl e => Q (inl e) s1
                | inr b => wp (f b) Q s1
                end) s →
  wp (m ≫= f) Q s.
Proof.
  unfold wp, mbind, M_bind. by destruct (m s) as [[e|b] s1].
Qed.

Lemma wp_try_catch (m : M A) (h : error → M A) Q s :
  wp m (λ r s1, match r with
                | inl e => wp (h e) Q s1
                | inr a => Q (inr a) s1
                end) s →
  wp (try_catch m h) Q s.
Proof.
  unfold wp, try_catch. by destruct (m s) as [[e|a] s1].
Qed.

End Rules.

Section PrimitiveRules.
Implicit Types (w : world) (p : string).
Implicit Types (disk : gmap string node) (t : list event) (ws : list string).

Lemma wp_emit e (Q : error + unit → state → Prop) disk t ws :
  Q (inr ()) (mkState disk (t ++ [e]) ws) →
  wp (emit e) Q (mkState disk t ws).
Proof. done. Qed.

Lemma wp_logWarning msg (Q : error + unit → state → Prop) disk t ws :
  Q (inr ()) (mkState disk t (ws ++ [msg])) →
  wp (logWarning msg) Q (mkState disk t ws).
Proof. done. Qed.

Lemma wp_existsSync p (Q : error + bool → state → Prop) disk t ws :
  Q (inr (Fs.exists_ disk p)) (mkState disk t ws) →
  wp (existsSync p) Q (mkState disk t ws).
Proof. done. Qed.

Lemma wp_getFolderSize w p (Q : error + nat → state → Prop) disk t ws :
  Q (inr (folder_size w (disk !! p))) (mkState disk t ws) →
  wp (getFolderSize w p) Q (mkState disk t ws).
Proof. done. Qed.

Lemma wp_unlinkFile w p (Q : error + unit → state → Prop) disk t ws :
  Q (inr ())
    (mkState (if can_unlink w p then Fs.unlink disk p else disk) t ws) →
  wp (unlinkFile w p) Q (mkState disk t ws).
Proof.
  unfold wp, unlinkFile, mbind, M_bind, get_fs. simpl.
  by destruct (can_unlink w p).
Qed.

Lemma wp_axios_get w url (Q : error + string → state → Prop) disk t ws :
  (http_get w url = None → Q (inl (HttpError url)) (mkState disk t ws)) →
  (∀ text, http_get w url = Some text →
           Q (inr text) (mkState disk t ws)) →
  wp (axios_get w url) Q (mkState disk t ws).
Proof.
  intros Hno Hyes. unfold wp, axios_get.
  destruct (http_get w url); [by apply Hyes | by apply Hno].
Qed.

Lemma wp_statSync_isDirectory p (Q : error + bool → state → Prop)
    disk t ws :
  (∀ code, Fs.is_directory disk p = inl code →
           Q (inl (FsError code "stat" p)) (mkState disk t ws)) →
  (∀ b, Fs.is_directory disk p = inr b → Q (inr b) (mkState disk t ws)) →
  wp (statSync_isDirectory p) Q (mkState disk t ws).
Proof.
  intros He Hb. unfold wp, statSync_isDirectory, mbind, M_bind, get_fs.
  simpl. destruct (Fs.is_directory disk p); [by apply He | by apply Hb].
Qed.

Lemma wp_readFileSync p (Q : error + string → state → Prop) disk t ws :
  (∀ code, Fs.read disk p = inl code →
           Q (inl (FsError code "open" p)) (mkState disk t ws)) →
  (∀ data, Fs.read disk p = inr data → Q (inr data) (mkState disk t ws)) →
  wp (readFileSync p) Q (mkState disk t ws).
Proof.
  intros He Hd. unfold wp, readFileSync, mbind, M_bind, get_fs. simpl.
  destruct (Fs.read disk p); [by apply He | by apply Hd].
Qed.

Lemma wp_mkdirSync p (Q : error + unit → state → Prop) disk t ws :
  (∀ code, Fs.mkdir disk p = inl code →
           Q (inl (FsError code "mkdir" p)) (mkState disk t ws)) →
  (∀ disk', Fs.mkdir disk p = inr disk' →
            Q (inr ()) (mkState disk' t ws)) →
  wp (mkdirSync p) Q (mkState disk t ws).
Proof.
  intros He Hd. unfold wp, mkdirSync, mbind, M_bind, get_fs. simpl.
  destruct (Fs.mkdir disk p); [by apply He | by apply Hd].
Qed.

Lemma wp_renameSync a b (Q : error + unit → state → Prop) disk t ws :
  (∀ code, Fs.rename disk a b = inl code →
           Q (inl (FsError code "rename" a)) (mkState disk t ws)) →
  (∀ disk', Fs.rename disk a b = inr disk' →
            Q (inr ()) (mkState disk' t ws)) →
  wp (renameSync a b) Q (mkState disk t ws).
Proof.
  intros He Hd. unfold wp, renameSync, mbind, M_bind, get_fs. simpl.
  destruct (Fs.rename disk a b); [by apply He | by apply Hd].
Qed.

Lemma wp_rmSync_recursive p (Q : error + unit → state → Prop) disk t ws :
  (∀ code, Fs.rm disk p = inl code →
           Q (inl (FsError code "rm" p)) (mkState disk t ws)) →
  (∀ disk', Fs.rm disk p = inr disk' → Q (inr ()) (mkState disk' t ws)) →
  wp (rmSync_recursive p) Q (mkState disk t ws).
Proof.
  intros He Hd. unfold wp, rmSync_recursive, mbind, M_bind, get_fs. simpl.
  destruct (Fs.rm disk p); [by apply He | by apply Hd].
Qed.

Lemma wp_downloadFile w v dir (Q : error + unit → state → Prop) disk t ws :
  (∀ data, fetch w (download v) = Downloaded data →
     Q (inr ()) (mkState (<[tarFile v dir := File data]> disk) t ws)) →
  (∀ reason data,
     fetch w (download v) = DownloadRejected reason (Some data) →
     Q (inl (Rejection reason))
       (mkState (<[tarFile v dir := File data]> disk) t ws)) →
  (∀ reason, fetch w (download v) = DownloadRejected reason None →
     Q (inl (Rejection reason)) (mkState disk t ws)) →
  wp (downloadFile w (download v) dir) Q (mkState disk t ws).
Proof.
  intros Hok Hpart Hnone.
  unfold wp, downloadFile, mbind, M_bind, get_fs. simpl.
  destruct (fetch w (download v)) as [data|reason [data|]];
    [by apply Hok | by apply Hpart | by apply Hnone].
Qed.

Lemma wp_unzipFile w filePath unzipDir (Q : error + unit → state → Prop)
    disk t ws :
  (∀ entries, extract w filePath = Unzipped entries →
     Q (inr ()) (mkState (<[unzipDir := Dir entries]> disk) t ws)) →
  (∀ reason entries,
     extract w filePath = UnzipRejected reason (Some entries) →
     Q (inl (Rejection reason))
       (mkState (<[unzipDir := Dir entries]> disk) t ws)) →
  (∀ reason, extract w filePath = UnzipRejected reason None →
     Q (inl (Rejection reason)) (mkState disk t ws)) →
  wp (unzipFile w filePath unzipDir) Q (mkState disk t ws).
Proof.
  intros Hok Hpart Hnone.
  unfold wp, unzipFile, mbind, M_bind, get_fs. simpl.
  destruct (extract w filePath) as [entries|reason [entries|]];
    [by apply Hok | by apply Hpart | by apply Hnone].
Qed.

Lemma wp_readFileSync_written p data (Q : error + string → state → Prop)
    disk t ws :
  Q (inr data) (mkState (<[p := File data]> disk) t ws) →
  wp (readFileSync p) Q (mkState (<[p := File data]> disk) t ws).
Proof.
  intros HQ. apply wp_readFileSync; unfold Fs.read;
    rewrite lookup_insert_eq; intros; by simplify_eq.
Qed.

Lemma wp_rmSync_written p n (Q : error + unit → state → Prop) disk t ws :
  Q (inr ()) (mkState (delete p disk) t ws) →
  wp (rmSync_recursive p) Q (mkState (<[p := n]> disk) t ws).
Proof.
  intros HQ. apply wp_rmSync_recursive; unfold Fs.rm;
    rewrite lookup_insert_eq; intros; simplify_eq.
  by rewrite delete_insert_eq.
Qed.

Lemma wp_rmSync_existing p (Q : error + unit → state → Prop) disk t ws :
  Fs.exists_ disk p = true →
  Q (inr ()) (mkState (delete p disk) t ws) →
  wp (rmSync_recursive p) Q (mkState disk t ws).
Proof.
  intros Hex HQ. apply wp_rmSync_recursive; unfold Fs.rm, Fs.exists_ in *;
    destruct (disk !! p); intros; by simplify_eq.
Qed.
End PrimitiveRules.

Global Opaque wp.

(** Use what the context already knows about a condition. *)
Ltac rewrite_known b :=
  repeat match goal with
         | H : ?x = _ |- _ =>
             lazymatch b with context [x] => rewrite H end
         end.

Ltac decide_or_split b :=
  first [ progress (rewrite_known b; cbn beta iota zeta delta [negb andb orb])
        | destruct b eqn:? ].

(** Two answers to one question are the same answer. *)
Ltac same_call :=
  repeat match goal with
         | H1 : fetch ?w ?u = _, H2 : fetch ?w ?u = _ |- _ =>
             rewrite H1 in H2; simplify_eq
         | H1 : extract ?w ?f = _, H2 : extract ?w ?f = _ |- _ =>
             rewrite H1 in H2; simplify_eq
         | H1 : http_get ?w ?u = _, H2 : http_get ?w ?u = _ |- _ =>
             rewrite H1 in H2; simplify_eq
         | H1 : Fs.is_directory ?d ?p = _, H2 : Fs.is_directory ?d ?p = _ |- _ =>
             rewrite H1 in H2; simplify_eq
         end.

(** One step of a walk through a computation. *)
Ltac wp_step :=
  lazymatch goal with
  | |- wp (_ ≫= _) _ _ => apply wp_bind
  | |- wp (mret _) _ _ => apply wp_ret
  | |- wp (throw _) _ _ => apply wp_throw
  | |- wp (try_catch _ _) _ _ => apply wp_try_catch
  | |- wp (catch_rejection _ _) _ _ =>
      unfold catch_rejection at 1; apply wp_try_catch
  | |- wp (when ?b _) _ _ => unfold when at 1
  | |- wp (abortHandler _ _ _) _ _ => unfold abortHandler at 1
  | |- wp (emit _) _ _ => apply wp_emit
  | |- wp (logWarning _) _ _ => apply wp_logWarning
  | |- wp (existsSync _) _ _ => apply wp_existsSync
  | |- wp (getFolderSize _ _) _ _ => apply wp_getFolderSize
  | |- wp (unlinkFile ?w ?p) _ _ =>
      apply wp_unlinkFile;
      try match goal with H : can_unlink w p = _ |- _ => rewrite H end
  | |- wp (axios_get _ _) _ _ =>
      apply wp_axios_get; [intros ?|intros ? ?]; same_call
  | |- wp (statSync_isDirectory _) _ _ =>
      apply wp_statSync_isDirectory; intros ? ?; same_call
  | |- wp (readFileSync _) _ _ =>
      first [ apply wp_readFileSync_written
            | apply wp_readFileSync; intros ? ? ]
  | |- wp (mkdirSync _) _ _ => apply wp_mkdirSync; intros ? ?
  | |- wp (renameSync _ _) _ _ => apply wp_renameSync; intros ? ?
  | |- wp (rmSync_recursive _) _ _ =>
      first [ apply wp_rmSync_written
            | eapply wp_rmSync_existing; [eassumption|]
            | apply wp_rmSync_recursive; intros ? ? ]
  | |- wp (downloadFile _ _ _) _ _ =>
      apply wp_downloadFile; [intros ? ?|intros ? ? ?|intros ? ?]; same_call
  | |- wp (unzipFile _ _ _) _ _ =>
      apply wp_unzipFile; [intros ? ?|intros ? ? ?|intros ? ?]; same_call
  | |- wp (if ?b then _ else _) _ _ => decide_or_split b
  | |- wp (match ?x with _ => _ end) _ _ => decide_or_split x
  end;
  cbn beta iota zeta.

Ltac wp_walk := repeat wp_step.

Ltac wp_start :=
  lazymatch goal with
  | |- wp (installVersion _ ?v ?dir _) _ _ =>
      unfold installVersion, init; cbn beta iota zeta;
      change (installSubDir v dir +:+ "_backup") with (backupDir v dir)
  end.

(** Turn a statement about the result and final state of a run into a
    walk through [installVersion]. *)
Ltac wp_run Hrun :=
  lazymatch type of Hrun with
  | _ = (?res, ?s') =>
      pattern res, s'; eapply wp_elim; [|exact Hrun]; clear Hrun;
      try clear res s'; wp_start
  end.

(** A point cannot be in a trace that is written out and lacks it. *)
Ltac absurd_elem H :=
  exfalso; simpl in H;
  repeat (apply elem_of_cons in H as [H|H]; [discriminate H|]);
  by apply elem_of_nil in H.

Ltac prove_not_elem :=
  let H := fresh in intros H; absurd_elem H.

(** ** Facts about the disk operations *)

Section FsFacts.
Implicit Types (disk : gmap string node) (p q : string).

Lemma exists_false disk p : Fs.exists_ disk p = false → disk !! p = None.
Proof. unfold Fs.exists_. by destruct (disk !! p). Qed.

Lemma rename_inr disk a b disk' :
  Fs.rename disk a b = inr disk' →
  ∃ n, disk !! a = Some n ∧ disk' = <[b := n]> (delete a disk).
Proof.
  unfold Fs.rename. destruct (disk !! a) as [n|]; [|done].
  destruct n, (disk !! b) as [[|[]]|]; naive_solver.
Qed.

Lemma rename_fresh disk a b n :
  disk !! a = Some n → disk !! b = None →
  Fs.rename disk a b = inr (<[b := n]> (delete a disk)).
Proof. unfold Fs.rename. intros -> ->. by destruct n. Qed.

Lemma rm_inr disk p disk' :
  Fs.rm disk p = inr disk' → is_Some (disk !! p) ∧ disk' = delete p disk.
Proof. unfold Fs.rm. destruct (disk !! p); naive_solver. Qed.

Lemma unlink_lookup_ne disk p q : p ≠ q → Fs.unlink disk p !! q = disk !! q.
Proof.
  intros Hne. unfold Fs.unlink. destruct (disk !! p) as [[]|]; [|done..].
  by rewrite lookup_delete_ne.
Qed.

Lemma unlink_lookup disk p :
  Fs.unlink disk p !! p = None
  ∨ ∃ entries, Fs.unlink disk p !! p = Some (Dir entries).
Proof.
  unfold Fs.unlink. destruct (disk !! p) as [[]|] eqn:E.
  - left. apply lookup_delete_eq.
  - right. eauto.
  - by left.
Qed.

Lemma unlink_file disk p data :
  disk !! p = Some (File data) → Fs.unlink disk p = delete p disk.
Proof. unfold Fs.unlink. by intros ->. Qed.

(** Nothing that is not a file: either nothing at all or a directory. *)
Lemma is_file_unlink disk p : Fs.is_file (Fs.unlink disk p) p = false.
Proof.
  unfold Fs.is_file. by destruct (unlink_lookup disk p) as [->|[? ->]].
Qed.

Lemma is_file_delete disk p q :
  Fs.is_file disk p = false → Fs.is_file (delete q disk) p = false.
Proof.
  unfold Fs.is_file. destruct (decide (q = p)) as [->|Hne].
  - by rewrite lookup_delete_eq.
  - by rewrite lookup_delete_ne.
Qed.

Lemma is_file_insert_ne disk p q n :
  q ≠ p → Fs.is_file disk p = false → Fs.is_file (<[q := n]> disk) p = false.
Proof. intros Hne. unfold Fs.is_file. by rewrite lookup_insert_ne. Qed.

Lemma is_file_rm disk p q disk' :
  Fs.rm disk q = inr disk' →
  Fs.is_file disk p = false → Fs.is_file disk' p = false.
Proof. intros [_ ->]%rm_inr. apply is_file_delete. Qed.

Lemma is_file_rename disk p a b disk' :
  Fs.rename disk a b = inr disk' → b ≠ p →
  Fs.is_file disk p = false → Fs.is_file disk' p = false.
Proof.
  intros (n & _ & ->)%rename_inr Hne Hp.
  by apply is_file_insert_ne, is_file_delete.
Qed.
End FsFacts.

Lemma append_longer (a b : string) : b ≠ "" → a ≠ a +:+ b.
Proof.
  intros Hb Heq. apply Hb. clear Hb.
  induction a as [|c a IH]; simpl in Heq; [done|].
  apply IH. by injection Heq.
Qed.

Lemma backupDir_fresh v dir : installSubDir v dir ≠ backupDir v dir.
Proof. unfold backupDir. by apply append_longer. Qed.

(** ** The installation pipeline *)

(** Once the download has started, a run that resolves or that rejects
    with one of the pipeline's own errors (abort, download failure,
    checksum mismatch, directory creation failure, extraction failure)
    leaves no archive file behind, provided the file can be removed and
    its name is not the name of the install subdirectory.  A run that
    ends in an exception of a file system call is not covered: see
    [archive_left_after_extraction_failure]. *)
Lemma archive_removed_when_settled w v dir ow disk res s' :
  installVersion w v dir ow (init disk) = (res, s') →
  EvDownload ∈ trace s' →
  settled res = true →
  can_unlink w (tarFile v dir) = true →
  tarFile v dir ≠ installSubDir v dir →
  Fs.is_file (fs s') (tarFile v dir) = false.
Proof.
  intros Hrun Hreached Hsettled Hcan Hne.
  revert Hreached Hsettled. wp_run Hrun. wp_walk.
  all: intros Hreached Hsettled; try discriminate Hsettled.
  all: try absurd_elem Hreached.
  all: clear Hreached Hsettled; simpl.
  all: repeat first
    [ apply is_file_unlink
    | apply is_file_delete
    | eapply is_file_rm; [eassumption|]
    | eapply is_file_rename; [eassumption|congruence|] ].
Qed.

(** The points recorded in the trace are an initial stretch of the
    pipeline order of the source: the manifest request first (when there
    is a checksum URL), then the target checks, the download-link check,
    the already-installed check, download, hash comparison, target
    preparation, extraction, clean-up.  What fixes the order of the
    steps themselves is [first_failure_decides]. *)
Lemma trace_follows_pipeline_order w v dir ow disk :
  let t := trace (installVersion w v dir ow (init disk)).2 in
  t `prefix_of` pipeline_order v
  ∧ in_phase_order (filter (λ e, e ≠ EvFetchManifest) t) = true.
Proof.
  intros t. subst t.
  destruct (installVersion w v dir ow (init disk)) as [res s'] eqn:Hrun.
  unfold pipeline_order. simpl. wp_run Hrun. wp_walk.
  all: split; [by eexists | reflexivity].
Qed.

Lemma lookup_unlink_written (disk : gmap string node) p data :
  Fs.unlink (<[p := File data]> disk) p !! p = None.
Proof.
  rewrite (unlink_file _ _ data) by apply lookup_insert_eq.
  apply lookup_delete_eq.
Qed.

(** Lookups through what the pipeline does to the disk, away from and at
    the path it touched. *)
Ltac fs_lookup :=
  repeat first
    [ rewrite lookup_unlink_written
    | rewrite unlink_lookup_ne by congruence
    | rewrite lookup_insert_eq
    | rewrite lookup_insert_ne by congruence
    | rewrite lookup_delete_eq
    | rewrite lookup_delete_ne by congruence ].

(** C10.  A run that fails with a checksum mismatch has changed nothing
    on disk but the archive file: every other path, the install
    subdirectory and the backup path among them, holds what it held
    before the run, the target was never prepared (no directory created,
    nothing renamed), and the archive file is gone when it can be
    removed. *)
Theorem checksum_mismatch_only_removes_archive w v dir ow disk res s' :
  installVersion w v dir ow (init disk) = (res, s') →
  res = inl ChecksumFailed →
  (∀ p, p ≠ tarFile v dir → fs s' !! p = disk !! p)
  ∧ (tarFile v dir ≠ installSubDir v dir →
     fs s' !! installSubDir v dir = disk !! installSubDir v dir)
  ∧ (tarFile v dir ≠ backupDir v dir →
     fs s' !! backupDir v dir = disk !! backupDir v dir)
  ∧ (can_unlink w (tarFile v dir) = true → fs s' !! tarFile v dir = None)
  ∧ EvPrepareTarget ∉ trace s'.
Proof.
  intros Hrun Hres. revert Hres.
  destruct (can_unlink w (tarFile v dir)) eqn:Hcan.
  all: wp_run Hrun; wp_walk.
  all: intros Hres; try discriminate Hres; clear Hres; simpl.
  all: split; [intros p Hp; by fs_lookup|].
  all: split; [intros Hne; by fs_lookup|].
  all: split; [intros Hne; by fs_lookup|].
  all: split; [intros Hc; first [discriminate Hc | by fs_lookup]|].
  all: prove_not_elem.
Qed.

(** When the download is rejected with an abort, the run rejects with
    an error named AbortError, the archive file is gone (when it can be
    removed), and no install subdirectory is left: one that was there
    before the run, which in this phase only an overwrite run can meet,
    is removed with it.  No other path changes. *)
Lemma download_abort_cleans_up w v dir ow disk res s' reason partial :
  installVersion w v dir ow (init disk) = (res, s') →
  EvDownload ∈ trace s' →
  fetch w (download v) = DownloadRejected reason partial →
  JsString.includes reason "AbortError" = true →
  (∃ e, res = inl e ∧ error_name e = "AbortError")
  ∧ fs s' !! installSubDir v dir = None
  ∧ (can_unlink w (tarFile v dir) = true →
     Fs.is_file (fs s') (tarFile v dir) = false)
  ∧ (∀ p, p ≠ tarFile v dir → p ≠ installSubDir v dir →
          fs s' !! p = disk !! p).
Proof.
  intros Hrun Hreached Hfetch Habort.
  revert Hreached. wp_run Hrun. wp_walk.
  all: intros Hreached; try absurd_elem Hreached; clear Hreached; simpl.
  all: repeat match goal with
       | H : Fs.exists_ _ _ = false |- _ => apply exists_false in H
       end.
  all: split; [by eexists|].
  all: split; [by fs_lookup|].
  all: split;
    [ intros ->; repeat first [ apply is_file_delete | apply is_file_unlink ]
    | intros p Hp1 Hp2; destruct (can_unlink w (tarFile v dir));
      by fs_lookup ].
Qed.

(** What the pre-flight checks see of a target that is a directory. *)
Lemma exists_dir (disk : gmap string node) p n :
  disk !! p = Some n → Fs.exists_ disk p = true.
Proof. unfold Fs.exists_. by intros ->. Qed.

Lemma is_directory_dir (disk : gmap string node) p entries :
  disk !! p = Some (Dir entries) → Fs.is_directory disk p = inr true.
Proof. unfold Fs.is_directory. by intros ->. Qed.

(** A manifest that is reachable was not refused. *)
Ltac manifest_absurd :=
  match goal with
  | Hm : manifest_reachable ?w ?v,
    Hsum : checksum ?v = Some ?url,
    Hno : http_get ?w ?url = None |- _ =>
      exfalso; destruct (Hm url) as [? ?]; congruence
  end.

(** C4 (amended).  When the install subdirectory exists, [overwrite] is
    false, the record has a download URL and the manifest request (made
    when the record has a checksum URL) succeeds, the run resolves at
    once: it returns the record with the measured size of the existing
    directory and the path of that directory, starts no download and
    leaves the disk as it was. *)
Theorem existing_install_is_reused w v dir disk entries n res s' :
  installVersion w v dir false (init disk) = (res, s') →
  disk !! dir = Some (Dir entries) →
  disk !! installSubDir v dir = Some n →
  JsString.truthy (download v) = true →
  manifest_reachable w v →
  res = inr (set_disksize v (folder_size w (Some n)), installSubDir v dir)
  ∧ fs s' = disk
  ∧ (EvDownload ∉ trace s').
Proof.
  intros Hrun Hdir Hsub Hlink Hmanifest.
  pose proof (exists_dir _ _ _ Hdir) as Hdir_exists.
  pose proof (is_directory_dir _ _ _ Hdir) as Hdir_is.
  pose proof (exists_dir _ _ _ Hsub) as Hsub_exists.
  wp_run Hrun. wp_walk.
  all: try manifest_absurd.
  all: rewrite ?Hsub.
  all: split; [reflexivity|].
  all: split; [reflexivity|].
  all: prove_not_elem.
Qed.

(** A target that is a directory passes the target checks. *)
Ltac preflight_absurd :=
  exfalso;
  match goal with
  | He : Fs.exists_ ?d ?p = true, H : negb (Fs.exists_ ?d ?p) = true |- _ =>
      rewrite He in H; discriminate H
  | Hd : Fs.is_directory ?d ?p = inr true,
    H : Fs.is_directory ?d ?p = inl _ |- _ =>
      rewrite Hd in H; discriminate H
  | Hd : Fs.is_directory ?d ?p = inr true,
    H : Fs.is_directory ?d ?p = inr ?b, Hb : negb ?b = true |- _ =>
      rewrite Hd in H; injection H as <-; discriminate Hb
  end.

(** C7 (amended).  A run on a record whose download URL is empty always
    rejects, starts no download and leaves the disk as it was.  The error
    is the missing-download-link error when the checks that come first
    pass: the manifest request (made when the record has a checksum URL)
    succeeds and the target is a directory. *)
Theorem missing_download_link_rejected w v dir ow disk res s' :
  installVersion w v dir ow (init disk) = (res, s') →
  JsString.truthy (download v) = false →
  (∃ e, res = inl e)
  ∧ fs s' = disk
  ∧ (EvDownload ∉ trace s')
  ∧ (manifest_reachable w v →
     (∃ entries, disk !! dir = Some (Dir entries)) →
     res = inl (NoDownloadLink (version v))).
Proof.
  intros Hrun Hlink. wp_run Hrun. wp_walk.
  all: split; [by eexists|].
  all: split; [reflexivity|].
  all: split; [prove_not_elem|].
  all: intros Hmanifest [entries Hdir]; try reflexivity.
  all: pose proof (exists_dir _ _ _ Hdir) as Hdir_exists.
  all: pose proof (is_directory_dir _ _ _ Hdir) as Hdir_is.
  all: try manifest_absurd.
  all: preflight_absurd.
Qed.

(** ** The order of the steps

    Each step of the pipeline, when it fails after the steps before it
    passed, decides the result, whatever the steps after it would do. *)





(** Split a record by what the manifest check will see. *)
Ltac manifest_cases Hacc :=
  lazymatch type of Hacc with
  | manifest_accepts ?w ?v ?data =>
      let url := fresh "url" in
      let text := fresh "text" in
      let Hsum := fresh "Hsum" in
      let Hurl := fresh "Hurl" in
      let Hget := fresh "Hget" in
      let Hinc := fresh "Hinc" in
      let Htext := fresh "Htext" in
      destruct (checksum v) as [url|] eqn:Hsum;
      [ destruct (JsString.truthy url) eqn:Hurl;
        [ destruct (Hacc url Hsum Hurl) as (text & Hget & Hinc);
          destruct (JsString.truthy text) eqn:Htext;
          [ specialize (Hinc eq_refl) | clear Hinc ]
        | ]
      | ];
      clear Hacc
  end.








Lemma unlink_lookup_file (disk : gmap string node) p data :
  disk !! p = Some (File data) → Fs.unlink disk p !! p = None.
Proof. intros H. rewrite (unlink_file _ _ _ H). apply lookup_delete_eq. Qed.

(** The rollback of an overwrite run: when the extractor fails after it
    has written into the install subdirectory, what it wrote is removed,
    the archive is removed and the backup is renamed back. *)
Lemma extraction_failure_rolls_back w v dir disk res s' old reason entries :
  installVersion w v dir true (init disk) = (res, s') →
  EvExtract ∈ trace s' →
  disk !! installSubDir v dir = Some old →
  extract w (tarFile v dir) = UnzipRejected reason (Some entries) →
  JsString.includes reason "AbortError" = false →
  can_unlink w (tarFile v dir) = true →
  tarFile v dir ≠ installSubDir v dir →
  tarFile v dir ≠ backupDir v dir →
  res = inl (UnzipFailed (JsString.last_segment (tarFile v dir)) reason)
  ∧ fs s' !! installSubDir v dir = Some old
  ∧ fs s' !! backupDir v dir = None
  ∧ fs s' !! tarFile v dir = None.
Proof.
  intros Hrun Hreached Hold Hextract Hreason Hcan Hne1 Hne2.
  pose proof (backupDir_fresh v dir) as Hne3.
  revert Hreached. wp_run Hrun. wp_walk.
  all: intros Hreached; try absurd_elem Hreached; clear Hreached; simpl.
  all: match goal with
       | H : Fs.rename _ (installSubDir _ _) _ = inr _ |- _ =>
           apply rename_inr in H as (n & Hn & ->);
           rewrite lookup_insert_ne, unlink_lookup_ne, Hold in Hn
             by congruence;
           injection Hn as <-
       end.
  all: match goal with
       | H : Fs.rename _ (backupDir _ _) _ = _ |- _ =>
           erewrite rename_fresh in H;
             [ | by fs_lookup
               | rewrite unlink_lookup_ne by congruence; by fs_lookup ];
           simplify_eq
       end.
  all: split; [done|].
  all: split; [by fs_lookup|].
  all: split; [by fs_lookup|].
  all: rewrite lookup_insert_ne by congruence.
  all: rewrite lookup_delete_ne by congruence.
  all: eapply unlink_lookup_file; by fs_lookup.
Qed.

(** The abort path of an overwrite run stops in the abort handler: the
    install subdirectory is removed and the backup stays where it was
    renamed to. *)
Lemma extraction_abort_keeps_backup w v dir disk res s' old reason partial :
  installVersion w v dir true (init disk) = (res, s') →
  EvExtract ∈ trace s' →
  disk !! installSubDir v dir = Some old →
  extract w (tarFile v dir) = UnzipRejected reason partial →
  JsString.includes reason "AbortError" = true →
  tarFile v dir ≠ installSubDir v dir →
  tarFile v dir ≠ backupDir v dir →
  res = inl (Aborted (version v))
  ∧ fs s' !! installSubDir v dir = None
  ∧ fs s' !! backupDir v dir = Some old.
Proof.
  intros Hrun Hreached Hold Hextract Hreason Hne1 Hne2.
  pose proof (backupDir_fresh v dir) as Hne3.
  destruct (can_unlink w (tarFile v dir)) eqn:Hcan, partial as [entries|].
  all: revert Hreached; wp_run Hrun; wp_walk.
  all: intros Hreached; try absurd_elem Hreached; clear Hreached; simpl.
  all: match goal with
       | H : Fs.rename _ (installSubDir _ _) _ = inr _ |- _ =>
           apply rename_inr in H as (n & Hn & ->);
           rewrite lookup_insert_ne, ?unlink_lookup_ne, Hold in Hn
             by congruence;
           injection Hn as <-
       end.
  all: repeat match goal with
       | H : Fs.exists_ _ _ = false |- _ => apply exists_false in H
       end.
  all: try match goal with
       | H : _ !! _ = None |- _ =>
           exfalso; revert H; fs_lookup; discriminate
       end.
  all: split; [done|].
  all: split; [ by fs_lookup | by fs_lookup ].
Qed.

(** The verification of a manifest that is not empty: an archive whose
    digest the manifest does not include is removed and the run rejects
    with the checksum error. *)
Lemma checksum_mismatch_rejected w v dir ow disk res s' url text data :
  installVersion w v dir ow (init disk) = (res, s') →
  EvChecksum ∈ trace s' →
  checksum v = Some url →
  JsString.truthy url = true →
  http_get w url = Some text →
  JsString.truthy text = true →
  fetch w (download v) = Downloaded data →
  JsString.includes text (sha512_hex w data) = false →
  can_unlink w (tarFile v dir) = true →
  res = inl ChecksumFailed ∧ fs s' !! tarFile v dir = None.
Proof.
  intros Hrun Hreached Hsum Hurl Hget Htext Hfetch Hdigest Hcan.
  revert Hreached. wp_run Hrun. wp_walk.
  all: intros Hreached; try absurd_elem Hreached; clear Hreached; simpl.
  all: split; [done | by fs_lookup].
Qed.

(** ** Concrete runs *)

Section Runs.
Import Scenario.

(** C1.  An overwrite run whose extraction is aborted: the abort handler
    removes the archive and what was extracted and throws, so the rename
    that restores the backup is never reached.  The prior install is
    left under the backup name and nothing is at the install path. *)
Theorem extraction_abort_strands_backup :
  let run := installVersion extractAborted plain installDir true
               (init installed) in
  installed !! installSubDir plain installDir = Some oldInstall
  ∧ run.1 = inl (Aborted "Wine-GE-8")
  ∧ error_name (Aborted "Wine-GE-8") = "AbortError"
  ∧ fs run.2 !! tarFile plain installDir = None
  ∧ fs run.2 !! installSubDir plain installDir = None
  ∧ fs run.2 !! backupDir plain installDir = Some oldInstall.
Proof. vm_compute. repeat split; reflexivity. Qed.

(** C2.  An overwrite run whose extractor fails before it has created
    the install subdirectory: removing the subdirectory throws, so the
    archive stays, the backup is not renamed back and the error is the
    one of the removal, not the extraction error. *)
Theorem early_extraction_failure_skips_rollback :
  let run := installVersion extractFailsAtOnce plain installDir true
               (init installed) in
  installed !! installSubDir plain installDir = Some oldInstall
  ∧ run.1 = inl (FsError ENOENT "rm" "/tools/Wine-GE-8")
  ∧ fs run.2 !! installSubDir plain installDir = None
  ∧ fs run.2 !! backupDir plain installDir = Some oldInstall
  ∧ fs run.2 !! tarFile plain installDir = Some (File "ARCHIVE").
Proof. vm_compute. repeat split; reflexivity. Qed.

(** C5.  A record with a checksum URL whose manifest comes back empty:
    the digest is not in the manifest, yet the comparison is skipped
    with the warning for a record without checksum, and the run
    installs the archive. *)
Theorem empty_manifest_skips_verification :
  let run := installVersion manifestEmpty summed installDir false
               (init emptyTarget) in
  is_Some (checksum summed)
  ∧ http_get manifestEmpty
      "https://example.org/releases/wine-ge-8.sha512sum" = Some ""
  ∧ JsString.includes "" (sha512_hex manifestEmpty "ARCHIVE") = false
  ∧ run.1 = inr (set_disksize summed 1, "/tools/Wine-GE-8")
  ∧ warnings run.2
  = ["No checksum provided. Download of Wine-GE-8 could be invalid!"]
  ∧ fs run.2 !! installSubDir summed installDir
    = Some (Dir [("bin/wine", "ELF")]).
Proof. vm_compute. repeat split; try reflexivity. by eexists. Qed.

(** C3.  An overwrite run whose download is aborted: the abort handler,
    which the download shares with the extraction, removes the install
    subdirectory whenever one exists.  The install that was there before
    the run, which the download cannot have displaced, is deleted, and
    no backup of it exists.  The same run with a download that fails for
    another reason leaves that install in place. *)
Theorem download_abort_removes_existing_install :
  let run := installVersion downloadAborted plain installDir true
               (init installed) in
  let sibling := installVersion ScenarioMore.downloadFails plain installDir
                   true (init installed) in
  installed !! installSubDir plain installDir = Some oldInstall
  ∧ run.1 = inl (Aborted "Wine-GE-8")
  ∧ fs run.2 !! tarFile plain installDir = None
  ∧ fs run.2 !! installSubDir plain installDir = None
  ∧ fs run.2 !! backupDir plain installDir = None
  ∧ sibling.1 = inl (DownloadFailed "Wine-GE-8" "Error: read ECONNRESET")
  ∧ fs sibling.2 !! installSubDir plain installDir = Some oldInstall.
Proof. vm_compute. repeat split; reflexivity. Qed.

(** C8.  Runs that end with the archive on disk although it can be
    removed and no removal of it failed.  In an overwrite run whose
    extractor fails before it has created the install subdirectory, the
    handler stops at the [rmSync] that throws, ahead of its
    [unlinkFile].  In an overwrite run with no install to replace, the
    [renameSync] of the backup step throws, and nothing catches it. *)
Theorem archive_left_after_extraction_failure :
  let run := installVersion extractFailsAtOnce plain installDir true
               (init installed) in
  let stray := installVersion fine plain installDir true
                 (init emptyTarget) in
  can_unlink extractFailsAtOnce (tarFile plain installDir) = true
  ∧ extract extractFailsAtOnce (tarFile plain installDir)
    = UnzipRejected "Archive type zip not supported!" None
  ∧ run.1 = inl (FsError ENOENT "rm" "/tools/Wine-GE-8")
  ∧ fs run.2 !! tarFile plain installDir = Some (File "ARCHIVE")
  ∧ can_unlink fine (tarFile plain installDir) = true
  ∧ stray.1 = inl (FsError ENOENT "rename" "/tools/Wine-GE-8")
  ∧ fs stray.2 !! tarFile plain installDir = Some (File "ARCHIVE").
Proof. vm_compute. repeat split; reflexivity. Qed.

(** C4, as stated, fails: with the install subdirectory in place and
    [overwrite] false, the run still rejects when the manifest request,
    which comes first, is refused. *)
Lemma existing_install_unreachable_manifest :
  let run := installVersion manifestUnreachable summed installDir false
               (init installed) in
  is_Some (installed !! installSubDir summed installDir)
  ∧ run.1
    = inl (HttpError "https://example.org/releases/wine-ge-8.sha512sum").
Proof. vm_compute. split; [by eexists | reflexivity]. Qed.


(** C7, as stated, fails: a record without download URL is rejected
    with the error of the manifest request when that request, which
    comes first, is refused. *)
Lemma missing_link_unreachable_manifest :
  let run := installVersion manifestUnreachable linkless installDir false
               (init emptyTarget) in
  download linkless = ""
  ∧ is_Some (emptyTarget !! installDir)
  ∧ run.1
    = inl (HttpError "https://example.org/releases/wine-ge-8.sha512sum")
  ∧ ¬ (∃ ver, run.1 = inl (NoDownloadLink ver)).
Proof.
  intros run.
  assert (run.1 = inl (HttpError
            "https://example.org/releases/wine-ge-8.sha512sum")) as Hrun
    by (vm_compute; reflexivity).
  split; [reflexivity|]. split; [by eexists|]. split; [exact Hrun|].
  intros [ver Hver]. rewrite Hrun in Hver. discriminate Hver.
Qed.

End Runs.

(** *** The theorems at concrete runs *)

Lemma archive_removed_when_settled_witness :
  let run := installVersion Scenario.extractFailsMidway Scenario.plain
               Scenario.installDir true (init Scenario.installed) in
  run.1 = inl (UnzipFailed "wine-ge-8.tar.xz" "tar: Unexpected EOF in archive")
  ∧ Fs.is_file (fs run.2) (tarFile Scenario.plain Scenario.installDir) = false.
Proof.
  intros run. split; [vm_compute; reflexivity|].
  apply (archive_removed_when_settled Scenario.extractFailsMidway
           Scenario.plain Scenario.installDir true Scenario.installed run.1).
  - apply surjective_pairing.
  - vm_compute. repeat constructor.
  - vm_compute. reflexivity.
  - vm_compute. reflexivity.
  - vm_compute. discriminate.
Defined.


Lemma checksum_mismatch_only_removes_archive_witness :
  let run := installVersion Scenario.manifestWrong Scenario.summed
               Scenario.installDir true (init Scenario.installed) in
  fs run.2 !! installSubDir Scenario.summed Scenario.installDir
  = Some Scenario.oldInstall
  ∧ fs run.2 !! backupDir Scenario.summed Scenario.installDir = None
  ∧ fs run.2 !! tarFile Scenario.summed Scenario.installDir = None.
Proof.
  intros run.
  destruct (checksum_mismatch_only_removes_archive Scenario.manifestWrong
              Scenario.summed Scenario.installDir true Scenario.installed
              run.1 run.2)
    as (_ & Hinstall & Hbackup & Harchive & _).
  - apply surjective_pairing.
  - vm_compute. reflexivity.
  - split; [|split].
    + rewrite Hinstall; [vm_compute; reflexivity | vm_compute; discriminate].
    + rewrite Hbackup; [vm_compute; reflexivity | vm_compute; discriminate].
    + apply Harchive. vm_compute. reflexivity.
Defined.

Lemma download_abort_cleans_up_witness :
  let run := installVersion Scenario.downloadAborted Scenario.plain
               Scenario.installDir true (init Scenario.installed) in
  (∃ e, run.1 = inl e ∧ error_name e = "AbortError")
  ∧ fs run.2 !! installSubDir Scenario.plain Scenario.installDir = None
  ∧ fs run.2 !! Scenario.installDir = Some (Dir []).
Proof.
  intros run.
  destruct (download_abort_cleans_up Scenario.downloadAborted Scenario.plain
              Scenario.installDir true Scenario.installed run.1 run.2
              "AbortError: The operation was aborted" (Some "ARCH"))
    as (Herr & Hinstall & _ & Hframe).
  - apply surjective_pairing.
  - vm_compute. repeat constructor.
  - vm_compute. reflexivity.
  - vm_compute. reflexivity.
  - split; [exact Herr|]. split; [exact Hinstall|].
    rewrite Hframe; [vm_compute; reflexivity | vm_compute; discriminate
                    | vm_compute; discriminate].
Defined.

Lemma existing_install_is_reused_witness :
  let run := installVersion Scenario.fine Scenario.summed Scenario.installDir
               false (init Scenario.installed) in
  run.1 = inr (set_disksize Scenario.summed 1, "/tools/Wine-GE-8")
  ∧ fs run.2 = Scenario.installed.
Proof.
  intros run.
  destruct (existing_install_is_reused Scenario.fine Scenario.summed
              Scenario.installDir Scenario.installed [] Scenario.oldInstall
              run.1 run.2)
    as (Hres & Hfs & _).
  - apply surjective_pairing.
  - vm_compute. reflexivity.
  - vm_compute. reflexivity.
  - vm_compute. reflexivity.
  - intros url _ _. by eexists.
  - split; [exact Hres | exact Hfs].
Defined.

Lemma missing_download_link_rejected_witness :
  let run := installVersion Scenario.fine Scenario.linkless
               Scenario.installDir false (init Scenario.emptyTarget) in
  run.1 = inl (NoDownloadLink "Wine-GE-8")
  ∧ fs run.2 = Scenario.emptyTarget.
Proof.
  intros run.
  destruct (missing_download_link_rejected Scenario.fine Scenario.linkless
              Scenario.installDir false Scenario.emptyTarget run.1 run.2)
    as (_ & Hfs & _ & Herr).
  - apply surjective_pairing.
  - vm_compute. reflexivity.
  - split; [|exact Hfs].
    apply Herr; [intros url _ _; by eexists | by eexists].
Defined.

(** * Further properties *)

(** ** More facts about the disk operations *)

Lemma mkdir_inr (disk : gmap string node) p disk' :
  Fs.mkdir disk p = inr disk' → disk !! p = None ∧ disk' = <[p := Dir []]> disk.
Proof.
  unfold Fs.mkdir. destruct (disk !! p); [done|].
  destruct (disk !! JsString.dirname p) as [[]|]; naive_solver.
Qed.

Lemma mkdir_fresh (disk : gmap string node) p entries :
  disk !! p = None → disk !! JsString.dirname p = Some (Dir entries) →
  Fs.mkdir disk p = inr (<[p := Dir []]> disk).
Proof. unfold Fs.mkdir. by intros -> ->. Qed.

Lemma exists_some (disk : gmap string node) p :
  Fs.exists_ disk p = true → is_Some (disk !! p).
Proof. unfold Fs.exists_. destruct (disk !! p); naive_solver. Qed.

Lemma is_directory_inr_true (disk : gmap string node) p :
  Fs.is_directory disk p = inr true → ∃ entries, disk !! p = Some (Dir entries).
Proof.
  unfold Fs.is_directory. destruct (disk !! p) as [[]|]; naive_solver.
Qed.

(** Unlinking removes files only: a directory stays, whatever the path. *)
Lemma unlink_keeps_dir (disk : gmap string node) p q entries :
  disk !! q = Some (Dir entries) → Fs.unlink disk p !! q = Some (Dir entries).
Proof.
  intros Hq. destruct (decide (p = q)) as [->|Hne].
  - unfold Fs.unlink. by rewrite Hq.
  - by rewrite unlink_lookup_ne.
Qed.

(** Read the disk operations that succeeded as equations on the disk. *)
Ltac fs_facts :=
  repeat match goal with
         | H : Fs.rename _ _ _ = inr _ |- _ =>
             let n := fresh "n" in
             let Hn := fresh "Hn" in
             apply rename_inr in H as (n & Hn & ->)
         | H : Fs.mkdir _ _ = inr _ |- _ =>
             let Hfree := fresh "Hfree" in
             apply mkdir_inr in H as (Hfree & ->)
         | H : Fs.rm _ _ = inr _ |- _ => apply rm_inr in H as (_ & ->)
         | H : Fs.exists_ _ _ = false |- _ => apply exists_false in H
         | H : Fs.exists_ _ _ = true |- _ => apply exists_some in H
         | H : _ && _ = true |- _ => apply andb_true_iff in H as [? ?]
         end.

(** ** Success *)

(** X1.  Whatever way a run resolves, it returns the install subdirectory,
    which is on disk, and the record it was given with the size measured
    there as its disk size. *)
Theorem resolved_run_returns_install w v dir ow disk r s' :
  installVersion w v dir ow (init disk) = (inr r, s') →
  r = (set_disksize v (folder_size w (fs s' !! installSubDir v dir)),
       installSubDir v dir)
  ∧ is_Some (fs s' !! installSubDir v dir).
Proof.
  intros Hrun.
  assert (∀ res, installVersion w v dir ow (init disk) = (res, s') →
            ∀ r, res = inr r →
            r = (set_disksize v (folder_size w (fs s' !! installSubDir v dir)),
                 installSubDir v dir)
            ∧ is_Some (fs s' !! installSubDir v dir)) as H; [|by eapply H].
  clear r Hrun. intros res Hrun.
  pose proof (backupDir_fresh v dir) as Hne.
  destruct (can_unlink w (tarFile v dir)) eqn:Hcan.
  all: wp_run Hrun; wp_walk.
  all: intros r Hr; try discriminate Hr; injection Hr as <-; simpl.
  all: split; [reflexivity|].
  all: fs_facts; try assumption.
  all: eexists; try (eapply unlink_keeps_dir); by fs_lookup.
Qed.

(** ** Paths *)

Lemma installDir_not_tarFile v dir : dir ≠ tarFile v dir.
Proof. unfold tarFile. by apply append_longer. Qed.

Lemma installDir_not_installSubDir v dir : dir ≠ installSubDir v dir.
Proof. unfold installSubDir. by apply append_longer. Qed.

Lemma string_app_assoc (a b c : string) : (a +:+ b) +:+ c = a +:+ (b +:+ c).
Proof.
  induction a as [|x a IH]; [done|].
  change (String x ((a +:+ b) +:+ c) = String x (a +:+ (b +:+ c))).
  by rewrite IH.
Qed.

Lemma installDir_not_backupDir v dir : dir ≠ backupDir v dir.
Proof.
  unfold backupDir, installSubDir.
  rewrite string_app_assoc. by apply append_longer.
Qed.

(** ** What a run leaves alone *)


(** X3.  Without [overwrite] the backup path is never used: it holds after
    the run what it held before (the archive must not be named like the
    backup). *)
Theorem fresh_run_leaves_backup_path w v dir disk res s' :
  installVersion w v dir false (init disk) = (res, s') →
  tarFile v dir ≠ backupDir v dir →
  fs s' !! backupDir v dir = disk !! backupDir v dir.
Proof.
  intros Hrun Hne1. pose proof (backupDir_fresh v dir) as Hne2.
  destruct (can_unlink w (tarFile v dir)) eqn:Hcan.
  all: wp_run Hrun; wp_walk.
  all: simpl; fs_facts; by fs_lookup.
Qed.

(** X4.  A run that ends before the download starts has not changed the
    disk: the failures of the manifest request and of the pre-flight checks,
    and the reuse of an existing install, write nothing. *)
Theorem no_change_before_download w v dir ow disk res s' :
  installVersion w v dir ow (init disk) = (res, s') →
  EvDownload ∉ trace s' →
  fs s' = disk.
Proof.
  intros Hrun Hnot. revert Hnot. wp_run Hrun. wp_walk.
  all: intros Hnot; try reflexivity.
  all: exfalso; apply Hnot; simpl; repeat constructor.
Qed.

(** ** Names without a slash *)

Lemma includes_slash_cons c x :
  JsString.includes (String c x) "/" = false →
  Ascii.eqb c "/" = false ∧ JsString.includes x "/" = false.
Proof.
  change (JsString.includes (String c x) "/")
    with (Ascii.eqb "/" c && true || JsString.includes x "/").
  rewrite andb_true_r, Ascii.eqb_sym. apply orb_false_elim.
Qed.

Lemma string_app_nil_r (a : string) : a +:+ "" = a.
Proof.
  induction a as [|x a IH]; [done|].
  change (String x (a +:+ "") = String x a). by rewrite IH.
Qed.

Lemma dirname_from_slashless done pending x :
  JsString.includes x "/" = false →
  JsString.dirname_from done pending x = done.
Proof.
  revert pending. induction x as [|c x IH]; intros pending Hx; [done|].
  apply includes_slash_cons in Hx as [Hc Hx].
  simpl. rewrite Hc. by apply IH.
Qed.

Lemma dirname_from_app done pending a x :
  JsString.includes x "/" = false →
  JsString.dirname_from done pending (a +:+ "/" +:+ x) = done +:+ pending +:+ a.
Proof.
  intros Hx. revert done pending.
  induction a as [|c a IH]; intros done pending.
  - change ("" +:+ "/" +:+ x) with (String "/" x). simpl.
    rewrite dirname_from_slashless by done.
    by rewrite string_app_nil_r.
  - change (String c a +:+ "/" +:+ x) with (String c (a +:+ "/" +:+ x)).
    simpl. destruct (Ascii.eqb c "/") eqn:Hc.
    + apply Ascii.eqb_eq in Hc as ->. rewrite IH.
      by rewrite string_app_assoc.
    + rewrite IH. by rewrite string_app_assoc.
Qed.

(** The parent of [dir/name] is [dir] when [name] has no slash. *)
Lemma dirname_child dir name :
  JsString.includes name "/" = false →
  JsString.dirname (dir +:+ "/" +:+ name) = dir.
Proof.
  intros Hname. unfold JsString.dirname.
  by rewrite dirname_from_app.
Qed.

(** ** Installs that succeed *)

(** X5.  A fresh install: into a target parent that is a directory and has
    no entry for the version, with an archive the manifest lets through and
    an extractor that succeeds, the run resolves; the install subdirectory
    then holds what was extracted, the archive is gone and the size returned
    is the size measured there. *)
Theorem fresh_install_succeeds w v dir disk res s' parent data entries :
  installVersion w v dir false (init disk) = (res, s') →
  disk !! dir = Some (Dir parent) →
  disk !! installSubDir v dir = None →
  JsString.includes (version v) "/" = false →
  JsString.truthy (download v) = true →
  fetch w (download v) = Downloaded data →
  manifest_accepts w v data →
  extract w (tarFile v dir) = Unzipped entries →
  can_unlink w (tarFile v dir) = true →
  tarFile v dir ≠ installSubDir v dir →
  res = inr (set_disksize v (folder_size w (Some (Dir entries))),
             installSubDir v dir)
  ∧ fs s' !! installSubDir v dir = Some (Dir entries)
  ∧ fs s' !! tarFile v dir = None.
Proof.
  intros Hrun Hdir Hsub Hname Hlink Hfetch Hacc Hextract Hcan Hne.
  pose proof (exists_dir _ _ _ Hdir) as Hdir_exists.
  pose proof (is_directory_dir _ _ _ Hdir) as Hdir_is.
  pose proof (installDir_not_tarFile v dir) as Hne_dir.
  assert (Fs.exists_ disk (installSubDir v dir) = false) as Hsub_exists
    by (unfold Fs.exists_; by rewrite Hsub).
  assert (JsString.dirname (installSubDir v dir) = dir) as Hparent
    by (by apply dirname_child).
  manifest_cases Hacc.
  all: wp_run Hrun; wp_walk.
  all: try match goal with
       | H : Fs.mkdir _ _ = inl _ |- _ =>
           exfalso; erewrite mkdir_fresh in H;
             [ discriminate H
             | by fs_lookup
             | rewrite Hparent; fs_lookup; exact Hdir ]
       end.
  all: simpl; fs_facts.
  all: rewrite (unlink_lookup_ne _ _ _ Hne), lookup_insert_eq.
  all: split; [reflexivity|]. 
  all: split; [reflexivity|].
  all: eapply unlink_lookup_file; by fs_lookup.
Qed.

Lemma rm_existing (disk : gmap string node) p n :
  disk !! p = Some n → Fs.rm disk p = inr (delete p disk).
Proof. unfold Fs.rm. by intros ->. Qed.

Lemma rename_missing (disk : gmap string node) a b :
  disk !! a = None → Fs.rename disk a b = inl ENOENT.
Proof. unfold Fs.rename. by intros ->. Qed.

Lemma rename_onto_nonempty (disk : gmap string node) a b entries e es :
  disk !! a = Some (Dir entries) → disk !! b = Some (Dir (e :: es)) →
  Fs.rename disk a b = inl ENOTEMPTY.
Proof. unfold Fs.rename. by intros -> ->. Qed.

(** X6.  An overwrite install: over an existing install, with no entry at
    the backup path, an archive the manifest lets through and an extractor
    that succeeds, the run resolves; the install subdirectory then holds
    what was extracted, and neither the backup nor the archive is left. *)
Theorem overwrite_install_replaces w v dir disk res s' parent old data entries :
  installVersion w v dir true (init disk) = (res, s') →
  disk !! dir = Some (Dir parent) →
  disk !! installSubDir v dir = Some old →
  disk !! backupDir v dir = None →
  JsString.truthy (download v) = true →
  fetch w (download v) = Downloaded data →
  manifest_accepts w v data →
  extract w (tarFile v dir) = Unzipped entries →
  can_unlink w (tarFile v dir) = true →
  tarFile v dir ≠ installSubDir v dir →
  tarFile v dir ≠ backupDir v dir →
  res = inr (set_disksize v (folder_size w (Some (Dir entries))),
             installSubDir v dir)
  ∧ fs s' !! installSubDir v dir = Some (Dir entries)
  ∧ fs s' !! backupDir v dir = None
  ∧ fs s' !! tarFile v dir = None.
Proof.
  intros Hrun Hdir Hsub Hbackup Hlink Hfetch Hacc Hextract Hcan Hne1 Hne2.
  pose proof (exists_dir _ _ _ Hdir) as Hdir_exists.
  pose proof (is_directory_dir _ _ _ Hdir) as Hdir_is.
  pose proof (backupDir_fresh v dir) as Hne3.
  pose proof (exists_dir _ _ _ Hsub) as Hsub_exists.
  manifest_cases Hacc.
  all: wp_run Hrun; wp_walk.
  all: match goal with
       | H : Fs.rename _ _ _ = _ |- _ =>
           erewrite rename_fresh in H;
             [ | fs_lookup; exact Hsub | fs_lookup; exact Hbackup ];
           simplify_eq
       end.
  all: try match goal with
       | H : Fs.rm _ _ = inl _ |- _ =>
           exfalso; erewrite rm_existing in H;
             [ discriminate H | by fs_lookup ]
       end.
  all: simpl; fs_facts.
  all: rewrite (unlink_lookup_ne _ _ _ Hne1).
  all: split; [by fs_lookup|].
  all: split; [by fs_lookup|].
  all: split; [rewrite unlink_lookup_ne by congruence; by fs_lookup|].
  all: eapply unlink_lookup_file; by fs_lookup.
Qed.

(** ** Overwrite runs that cannot start *)

(** X7.  [overwrite] without an install to replace never succeeds: the
    rename of the missing install subdirectory throws after the download and
    the checksum, and the error is not caught, so the archive that was
    downloaded stays on disk. *)
Theorem overwrite_without_install_fails w v dir disk res s' :
  installVersion w v dir true (init disk) = (res, s') →
  disk !! installSubDir v dir = None →
  tarFile v dir ≠ installSubDir v dir →
  (∃ e, res = inl e)
  ∧ (EvPrepareTarget ∈ trace s' →
     ∃ data, fetch w (download v) = Downloaded data
             ∧ res = inl (FsError ENOENT "rename" (installSubDir v dir))
             ∧ (can_unlink w (tarFile v dir) = true →
                fs s' !! tarFile v dir = Some (File data))
             ∧ fs s' !! installSubDir v dir = None).
Proof.
  intros Hrun Hsub Hne.
  assert (Fs.exists_ disk (installSubDir v dir) = false) as Hsub_exists
    by (unfold Fs.exists_; by rewrite Hsub).
  wp_run Hrun. wp_walk.
  all: match goal with
       | H : Fs.rename _ _ _ = _ |- _ =>
           rewrite rename_missing in H
             by (destruct (can_unlink w (tarFile v dir)); fs_lookup;
                 exact Hsub);
           simplify_eq
       | _ => idtac
       end.
  all: split; [by eexists|].
  all: intros Hreached; try absurd_elem Hreached; clear Hreached; simpl.
  all: eexists; split; [eassumption|].
  all: split; [reflexivity|].
  all: split; [intros ->|destruct (can_unlink w (tarFile v dir))];
    by fs_lookup.
Qed.

(** X8.  An overwrite run that meets a backup directory with content (left
    by an earlier run) stops at the rename: the error of the rename is not
    caught, the install and the old backup stay as they were and the archive
    that was downloaded stays on disk. *)
Theorem overwrite_blocked_by_stale_backup
    w v dir disk res s' old e es :
  installVersion w v dir true (init disk) = (res, s') →
  EvPrepareTarget ∈ trace s' →
  disk !! installSubDir v dir = Some (Dir old) →
  disk !! backupDir v dir = Some (Dir (e :: es)) →
  tarFile v dir ≠ installSubDir v dir →
  tarFile v dir ≠ backupDir v dir →
  res = inl (FsError ENOTEMPTY "rename" (installSubDir v dir))
  ∧ fs s' !! installSubDir v dir = Some (Dir old)
  ∧ fs s' !! backupDir v dir = Some (Dir (e :: es))
  ∧ Fs.is_file (fs s') (tarFile v dir) = true.
Proof.
  intros Hrun Hreached Hsub Hbackup Hne1 Hne2.
  pose proof (exists_dir _ _ _ Hsub) as Hsub_exists.
  revert Hreached.
  destruct (can_unlink w (tarFile v dir)) eqn:Hcan.
  all: wp_run Hrun; wp_walk.
  all: intros Hreached; try absurd_elem Hreached; clear Hreached; simpl.
  all: match goal with
       | H : Fs.rename _ _ _ = _ |- _ =>
           erewrite rename_onto_nonempty in H;
             [ | fs_lookup; exact Hsub | fs_lookup; exact Hbackup ];
           simplify_eq
       end.
  all: split; [reflexivity|].
  all: split; [by fs_lookup|].
  all: split; [by fs_lookup|].
  all: unfold Fs.is_file; by fs_lookup.
Qed.

(** ** Failures that clean up *)

(** X9.  A target parent that is missing, or that is a file, is rejected
    with its own error before anything is written (the manifest request,
    made first, must have succeeded). *)
Theorem invalid_target_rejected w v dir ow disk res s' :
  installVersion w v dir ow (init disk) = (res, s') →
  manifest_reachable w v →
  (disk !! dir = None → res = inl (InstallDirMissing dir))
  ∧ (∀ data, disk !! dir = Some (File data) →
             res = inl (InstallDirNotDirectory dir))
  ∧ ((∀ entries, disk !! dir ≠ Some (Dir entries)) → fs s' = disk).
Proof.
  intros Hrun Hmanifest.
  destruct (disk !! dir) as [[file|parent]|] eqn:Hdir.
  - assert (Fs.exists_ disk dir = true) as Hexists
      by (unfold Fs.exists_; by rewrite Hdir).
    assert (Fs.is_directory disk dir = inr false) as Hstat
      by (unfold Fs.is_directory; by rewrite Hdir).
    wp_run Hrun. wp_walk.
    all: try manifest_absurd.
    all: split; [intros Hnone; discriminate Hnone|].
    all: split; [reflexivity|reflexivity].
  - split; [intros Hnone; discriminate Hnone|].
    split; [intros data Hfile; discriminate Hfile|].
    intros Hnot. by destruct (Hnot parent).
  - assert (Fs.exists_ disk dir = false) as Hexists
      by (unfold Fs.exists_; by rewrite Hdir).
    wp_run Hrun. wp_walk.
    all: try manifest_absurd.
    all: split; [reflexivity|].
    all: split; [intros data Hfile; discriminate Hfile|reflexivity].
Qed.

(** X10.  A download that fails for another reason than an abort: the run
    rejects with the download error carrying the reason, the archive is gone
    (when it can be removed) and no other path has changed, so an install
    that an overwrite run was to replace is still there. *)
Theorem download_failure_cleans_up w v dir ow disk res s' reason partial :
  installVersion w v dir ow (init disk) = (res, s') →
  EvDownload ∈ trace s' →
  fetch w (download v) = DownloadRejected reason partial →
  JsString.includes reason "AbortError" = false →
  res = inl (DownloadFailed (version v) reason)
  ∧ (can_unlink w (tarFile v dir) = true →
     Fs.is_file (fs s') (tarFile v dir) = false)
  ∧ (∀ p, p ≠ tarFile v dir → fs s' !! p = disk !! p).
Proof.
  intros Hrun Hreached Hfetch Hreason. revert Hreached.
  destruct (can_unlink w (tarFile v dir)) eqn:Hcan.
  all: wp_run Hrun; wp_walk.
  all: intros Hreached; try absurd_elem Hreached; clear Hreached; simpl.
  all: split; [reflexivity|].
  all: split; [intros Hc; first [discriminate Hc | apply is_file_unlink]|].
  all: intros p Hp; by fs_lookup.
Qed.

(** X11.  Without [overwrite], an extraction that fails for another reason
    than an abort is rolled back completely, whether or not the extractor
    had written anything: the install subdirectory and the archive are
    removed, no other path has changed and the run rejects with the
    extraction error carrying the archive name and the reason. *)
Theorem fresh_extraction_failure_cleans_up
    w v dir disk res s' reason partial :
  installVersion w v dir false (init disk) = (res, s') →
  EvExtract ∈ trace s' →
  extract w (tarFile v dir) = UnzipRejected reason partial →
  JsString.includes reason "AbortError" = false →
  can_unlink w (tarFile v dir) = true →
  tarFile v dir ≠ installSubDir v dir →
  res = inl (UnzipFailed (JsString.last_segment (tarFile v dir)) reason)
  ∧ fs s' !! installSubDir v dir = None
  ∧ fs s' !! tarFile v dir = None
  ∧ (∀ p, p ≠ tarFile v dir → p ≠ installSubDir v dir →
          fs s' !! p = disk !! p).
Proof.
  intros Hrun Hreached Hextract Hreason Hcan Hne. revert Hreached.
  destruct partial as [entries|].
  all: wp_run Hrun; wp_walk.
  all: intros Hreached; try absurd_elem Hreached; clear Hreached; simpl.
  all: fs_facts.
  all: try match goal with
       | H : Fs.rm _ _ = inl _ |- _ =>
           exfalso; erewrite rm_existing in H;
             [ discriminate H | by fs_lookup ]
       end.
  all: split; [reflexivity|].
  all: split; [rewrite unlink_lookup_ne by congruence; by fs_lookup|].
  all: split; [eapply unlink_lookup_file; by fs_lookup|].
  all: intros p Hp1 Hp2; by fs_lookup.
Qed.

(** X12.  Without [overwrite], an extraction that is aborted leaves nothing
    behind either: the abort handler removes the archive and the install
    subdirectory, and the run rejects with the error named AbortError. *)
Theorem fresh_extraction_abort_cleans_up
    w v dir disk res s' reason partial :
  installVersion w v dir false (init disk) = (res, s') →
  EvExtract ∈ trace s' →
  extract w (tarFile v dir) = UnzipRejected reason partial →
  JsString.includes reason "AbortError" = true →
  can_unlink w (tarFile v dir) = true →
  tarFile v dir ≠ installSubDir v dir →
  (∃ e, res = inl e ∧ error_name e = "AbortError")
  ∧ fs s' !! installSubDir v dir = None
  ∧ fs s' !! tarFile v dir = None
  ∧ (∀ p, p ≠ tarFile v dir → p ≠ installSubDir v dir →
          fs s' !! p = disk !! p).
Proof.
  intros Hrun Hreached Hextract Hreason Hcan Hne. revert Hreached.
  destruct partial as [entries|].
  all: wp_run Hrun; wp_walk.
  all: intros Hreached; try absurd_elem Hreached; clear Hreached; simpl.
  all: fs_facts.
  all: try match goal with
       | H : _ !! _ = None |- _ =>
           exfalso; revert H; fs_lookup; discriminate
       end.
  all: split; [by eexists|].
  all: split; [by fs_lookup|].
  all: split;
    [ rewrite lookup_delete_ne by congruence;
      eapply unlink_lookup_file; by fs_lookup|].
  all: intros p Hp1 Hp2; by fs_lookup.
Qed.

(** ** Where an error comes from *)

(** X13.  What becomes of a rejection of the fetcher or the extractor.
    The string it rejects with is never the result of the run.  A
    rejection of the fetcher becomes the abort error when the string
    includes [AbortError] and the download error otherwise.  A rejection
    of the extractor becomes the abort error when the string includes
    [AbortError]; otherwise it becomes the extraction error, unless the
    clean-up of the handler throws first: then the run rejects with the
    error of that [rmSync] or [renameSync]. *)
Theorem rejection_never_escapes w v dir ow disk res s' :
  installVersion w v dir ow (init disk) = (res, s') →
  (∀ reason, res ≠ inl (Rejection reason))
  ∧ (∀ reason partial,
       EvDownload ∈ trace s' →
       fetch w (download v) = DownloadRejected reason partial →
       res = inl (if JsString.includes reason "AbortError"
                  then Aborted (version v)
                  else DownloadFailed (version v) reason))
  ∧ (∀ reason partial,
       EvExtract ∈ trace s' →
       extract w (tarFile v dir) = UnzipRejected reason partial →
       if JsString.includes reason "AbortError"
       then res = inl (Aborted (version v))
       else res = inl (UnzipFailed (JsString.last_segment (tarFile v dir))
                         reason)
            ∨ res = inl (FsError ENOENT "rm" (installSubDir v dir))
            ∨ ∃ code, res = inl (FsError code "rename" (backupDir v dir))).
Proof.
  intros Hrun. split; [|split].
  - intros reason. wp_run Hrun. wp_walk. all: discriminate.
  - intros reason partial Hreached Hfetch. revert Hreached.
    destruct (JsString.includes reason "AbortError") eqn:Habort.
    all: destruct (can_unlink w (tarFile v dir)) eqn:Hcan.
    all: wp_run Hrun; wp_walk.
    all: intros Hreached; first [reflexivity | absurd_elem Hreached].
  - intros reason partial Hreached Hextract. revert Hreached.
    destruct (JsString.includes reason "AbortError") eqn:Habort.
    all: destruct (can_unlink w (tarFile v dir)) eqn:Hcan.
    all: wp_run Hrun; wp_walk.
    all: intros Hreached; try absurd_elem Hreached; clear Hreached.
    all: try reflexivity.
    all: first [ by left
               | right; left; match goal with
                   | H : Fs.rm _ _ = inl ?c |- _ =>
                       unfold Fs.rm in H; by case_match; simplify_eq
                   end
               | right; right; by eexists ].
Qed.

(** X14.  Each error of the pipeline names its cause.  An abort error is
    raised only when the fetcher or the extractor rejected with a text that
    includes [AbortError]; a download or extraction error carries the text
    the collaborator rejected with; a checksum error means a manifest that
    is not empty and does not include the digest of the archive that was
    downloaded. *)
Theorem error_has_cause w v dir ow disk res s' :
  installVersion w v dir ow (init disk) = (res, s') →
  (∀ ver, res = inl (Aborted ver) →
     ver = version v
     ∧ ((∃ reason partial,
           fetch w (download v) = DownloadRejected reason partial
           ∧ JsString.includes reason "AbortError" = true)
        ∨ (∃ reason partial,
             extract w (tarFile v dir) = UnzipRejected reason partial
             ∧ JsString.includes reason "AbortError" = true)))
  ∧ (∀ ver reason, res = inl (DownloadFailed ver reason) →
       ver = version v
       ∧ JsString.includes reason "AbortError" = false
       ∧ ∃ partial, fetch w (download v) = DownloadRejected reason partial)
  ∧ (∀ file reason, res = inl (UnzipFailed file reason) →
       file = JsString.last_segment (tarFile v dir)
       ∧ JsString.includes reason "AbortError" = false
       ∧ ∃ partial, extract w (tarFile v dir) = UnzipRejected reason partial)
  ∧ (res = inl ChecksumFailed →
       ∃ url text data,
         checksum v = Some url
         ∧ http_get w url = Some text
         ∧ JsString.truthy text = true
         ∧ fetch w (download v) = Downloaded data
         ∧ JsString.includes text (sha512_hex w data) = false).
Proof.
  intros Hrun. wp_run Hrun. wp_walk.
  all: repeat match goal with
       | H : negb _ = true |- _ => apply negb_true_iff in H
       | H : negb _ = false |- _ => apply negb_false_iff in H
       end.
  all: split;
    [ intros ver Hres;
      first [ discriminate Hres
            | injection Hres as <-; split; [reflexivity|]; eauto 6 ] |].
  all: split;
    [ intros ver reason' Hres;
      first [ discriminate Hres | injection Hres as <- <-; eauto 6 ] |].
  all: split;
    [ intros file reason' Hres;
      first [ discriminate Hres | injection Hres as <- <-; eauto 6 ] |].
  all: intros Hres; first [ discriminate Hres | eauto 10 ].
Qed.

(** ** Substrings and archive names *)

Lemma is_prefix_spec p s :
  JsString.is_prefix p s = true ↔ ∃ post, s = p +:+ post.
Proof.
  revert s. induction p as [|a p IH]; intros s; simpl.
  - split; [intros _; by exists s | done].
  - destruct s as [|b s]; simpl.
    + split; [done | intros [post Hpost]; discriminate Hpost].
    + rewrite andb_true_iff, Ascii.eqb_eq, IH. split.
      * intros [-> [post ->]]. by exists post.
      * intros [post Hpost].
        change (String a p +:+ post) with (String a (p +:+ post)) in Hpost.
        injection Hpost as -> ->. split; [done | by exists post].
Qed.

(** X15.  [includes] is substring containment: the text occurs somewhere in
    the string, with anything before and after it. *)
Theorem includes_spec s t :
  JsString.includes s t = true ↔ ∃ pre post, s = pre +:+ t +:+ post.
Proof.
  induction s as [|c s IH].
  - simpl. rewrite orb_false_r, is_prefix_spec. split.
    + intros [post Hpost]. by exists "", post.
    + intros (pre & post & Heq). destruct pre as [|x pre].
      * by exists post.
      * discriminate Heq.
  - change (JsString.includes (String c s) t)
      with (JsString.is_prefix t (String c s) || JsString.includes s t).
    rewrite orb_true_iff, is_prefix_spec, IH. split.
    + intros [[post Hpost]|(pre & post & ->)].
      * by exists "", post.
      * by exists (String c pre), post.
    + intros (pre & post & Heq). destruct pre as [|x pre].
      * left. by exists post.
      * right.
        change (String x pre +:+ t +:+ post)
          with (String x (pre +:+ t +:+ post)) in Heq.
        injection Heq as -> ->. by exists pre, post.
Qed.

Lemma includes_slash_app a b :
  JsString.includes (a +:+ b) "/" = false ↔
  JsString.includes a "/" = false ∧ JsString.includes b "/" = false.
Proof.
  induction a as [|c a IH].
  - change ("" +:+ b) with b. simpl. tauto.
  - change (String c a +:+ b) with (String c (a +:+ b)).
    change (JsString.includes (String c (a +:+ b)) "/")
      with (Ascii.eqb "/" c && true || JsString.includes (a +:+ b) "/").
    change (JsString.includes (String c a) "/")
      with (Ascii.eqb "/" c && true || JsString.includes a "/").
    rewrite !orb_false_iff, IH. tauto.
Qed.

Lemma last_segment_from_slashless acc s :
  JsString.includes acc "/" = false →
  JsString.includes (JsString.last_segment_from acc s) "/" = false.
Proof.
  revert acc. induction s as [|c s IH]; intros acc Hacc; [done|].
  simpl. destruct (Ascii.eqb c "/") eqn:Hc.
  - by apply IH.
  - apply IH, includes_slash_app. split; [done|].
    change (JsString.includes (String c "") "/")
      with (Ascii.eqb "/" c && true || false).
    by rewrite Ascii.eqb_sym, Hc.
Qed.

Lemma last_segment_from_keeps acc x :
  JsString.includes x "/" = false →
  JsString.last_segment_from acc x = acc +:+ x.
Proof.
  revert acc. induction x as [|c x IH]; intros acc Hx.
  - by rewrite string_app_nil_r.
  - apply includes_slash_cons in Hx as [Hc Hx].
    simpl. rewrite Hc, IH by done. by rewrite string_app_assoc.
Qed.

Lemma last_segment_from_app acc a x :
  JsString.includes x "/" = false →
  JsString.last_segment_from acc (a +:+ "/" +:+ x) = x.
Proof.
  intros Hx. revert acc. induction a as [|c a IH]; intros acc.
  - change ("" +:+ "/" +:+ x) with (String "/" x). simpl.
    by rewrite last_segment_from_keeps.
  - change (String c a +:+ "/" +:+ x) with (String c (a +:+ "/" +:+ x)).
    simpl. destruct (Ascii.eqb c "/"); apply IH.
Qed.

(** X16.  The archive name is the text after the last slash of the download
    URL: it has no slash itself, a URL [base/name] gives [name], the archive
    lies directly in the target parent directory, and taking the last
    segment of the archive path (as the extraction error does) gives the
    same name again. *)
Theorem archive_name_is_last_segment v dir :
  JsString.includes (JsString.last_segment (download v)) "/" = false
  ∧ (∀ base name, download v = base +:+ "/" +:+ name →
       JsString.includes name "/" = false →
       tarFile v dir = dir +:+ "/" +:+ name)
  ∧ JsString.dirname (tarFile v dir) = dir
  ∧ JsString.last_segment (tarFile v dir)
    = JsString.last_segment (download v).
Proof.
  assert (JsString.includes (JsString.last_segment (download v)) "/" = false)
    as Hname by (by apply last_segment_from_slashless).
  split; [exact Hname|]. split; [|split].
  - intros base name Hurl Hslash. unfold tarFile, JsString.last_segment.
    by rewrite Hurl, last_segment_from_app.
  - unfold tarFile. by apply dirname_child.
  - unfold tarFile at 1. unfold JsString.last_segment at 1.
    by rewrite last_segment_from_app.
Qed.

(** ** More on the catalog query *)

Section CatalogMore.

Variables WINEGE_URL PROTONGE_URL PROTON_URL : string.
Variables WINELUTRIS_URL WINECROSSOVER_URL WINESTAGINGMACOS_URL : string.
Variable fetchReleases : string → string → nat → string + list VersionInfo.

Local Abbreviation visit_ :=
  (visit WINEGE_URL PROTONGE_URL PROTON_URL WINELUTRIS_URL
     WINECROSSOVER_URL WINESTAGINGMACOS_URL fetchReleases).
Local Abbreviation answer_ :=
  (answer WINEGE_URL PROTONGE_URL PROTON_URL WINELUTRIS_URL
     WINECROSSOVER_URL WINESTAGINGMACOS_URL fetchReleases).
Lemma visit_from count acc repo :
  visit_ count acc repo
  = (acc.1 ++ (visit_ count ([], []) repo).1,
     acc.2 ++ (visit_ count ([], []) repo).2).
Proof.
  destruct acc as [releases log].
  destruct repo; unfold visit, fetchInto; simpl;
    try (destruct (fetchReleases _ _ _); simpl);
    by rewrite ?app_nil_r.
Qed.

Lemma foldl_visit_from count repos acc :
  foldl (visit_ count) acc repos
  = (acc.1 ++ (foldl (visit_ count) ([], []) repos).1,
     acc.2 ++ (foldl (visit_ count) ([], []) repos).2).
Proof.
  revert acc. induction repos as [|repo repos IH]; intros acc; simpl.
  - destruct acc. by rewrite !app_nil_r.
  - rewrite IH, (IH (visit_ count ([], []) repo)), (visit_from count acc).
    simpl. by rewrite !app_assoc.
Qed.

(** X17.  Asking for two lists of repositories in one query gives what the
    two queries give one after the other: the releases of the first followed
    by those of the second, and likewise for the log.  A repository listed
    twice is fetched twice. *)
Theorem getAvailableVersions_app repos1 repos2 count :
  let query :=
    getAvailableVersions WINEGE_URL PROTONGE_URL PROTON_URL WINELUTRIS_URL
      WINECROSSOVER_URL WINESTAGINGMACOS_URL fetchReleases in
  query (repos1 ++ repos2) count
  = ((query repos1 count).1 ++ (query repos2 count).1,
     (query repos1 count).2 ++ (query repos2 count).2).
Proof.
  intros query. subst query.
  unfold getAvailableVersions. rewrite foldl_app.
  apply foldl_visit_from.
Qed.

Lemma visit_logs_unknown count acc key :
  visit_ count acc (OtherRepository key)
  = (acc.1,
     acc.2 ++ [LoggedWarning
       ("Unknown and not supported repository key passed! Skip fetch for "
        +:+ key)]).
Proof. reflexivity. Qed.

(** X18.  A key the switch does not know is skipped: it adds one entry to
    the log, the warning that names it, at its place among the entries
    of the other repositories, and nothing to the releases, which are
    those of the query without that key. *)
Theorem unknown_repository_is_skipped before after key count :
  let query :=
    getAvailableVersions WINEGE_URL PROTONGE_URL PROTON_URL WINELUTRIS_URL
      WINECROSSOVER_URL WINESTAGINGMACOS_URL fetchReleases in
  (query (before ++ OtherRepository key :: after) count).1
  = (query (before ++ after) count).1
  ∧ (query (before ++ OtherRepository key :: after) count).2
    = (query before count).2
      ++ LoggedWarning
           ("Unknown and not supported repository key passed! Skip fetch for "
            +:+ key)
         :: (query after count).2.
Proof.
  intros query. subst query. unfold getAvailableVersions.
  rewrite !foldl_app.
  change (foldl (visit_ count) (foldl (visit_ count) ([], []) before)
            (OtherRepository key :: after))
    with (foldl (visit_ count)
            (visit_ count (foldl (visit_ count) ([], []) before)
               (OtherRepository key)) after).
  rewrite visit_logs_unknown.
  rewrite (foldl_visit_from count after (_, _ ++ _)).
  rewrite (foldl_visit_from count after (foldl _ _ before)).
  simpl. split; [reflexivity|].
  by rewrite <- app_assoc.
Qed.

Lemma visit_log_nil count repo :
  (visit_ count ([], []) repo).2 = [] ↔
  ∃ fetchedReleases, answer_ count repo = Some (inr fetchedReleases).
Proof.
  destruct repo; unfold visit, fetchInto, answer; simpl.
  7: { split; [intros Hnil; discriminate Hnil | intros [? ?]; discriminate]. }
  all: match goal with
       | |- context [fetchReleases ?u ?t ?c] =>
           destruct (fetchReleases u t c) as [failure|fetched]
       end; simpl.
  all: split.
  all: first [ intros Hnil; discriminate Hnil
             | intros [? Hfetched]; discriminate Hfetched
             | intros _; by eexists
             | intros _; reflexivity ].
Qed.

(** X19.  Nothing is logged exactly when every repository of the query is
    one the switch knows and its fetch succeeded. *)
Theorem log_empty_iff_all_fetched repos count :
  (getAvailableVersions WINEGE_URL PROTONGE_URL PROTON_URL WINELUTRIS_URL
     WINECROSSOVER_URL WINESTAGINGMACOS_URL fetchReleases repos count).2 = []
  ↔ ∀ repo, repo ∈ repos →
      ∃ fetchedReleases,
        answer WINEGE_URL PROTONGE_URL PROTON_URL WINELUTRIS_URL
          WINECROSSOVER_URL WINESTAGINGMACOS_URL fetchReleases count repo
        = Some (inr fetchedReleases).
Proof.
  unfold getAvailableVersions. induction repos as [|repo repos IH].
  - split; [intros _ repo Hin; by apply elem_of_nil in Hin | done].
  - simpl. rewrite foldl_visit_from. simpl.
    split.
    + intros [Hhere Hrest]%app_nil r [->|Hin]%elem_of_cons.
      * by apply visit_log_nil.
      * by apply IH.
    + intros Hall. apply app_nil. split.
      * apply visit_log_nil, Hall. by left.
      * apply IH. intros r Hin. apply Hall. by right.
Qed.

End CatalogMore.

(** ** The checksum phase *)

(** X20.  A run that gets past the checksum phase has either found the
    digest of the downloaded archive in the manifest, or logged the
    no-checksum warning, once, and nothing else. *)
Theorem verified_or_warned w v dir ow disk res s' :
  installVersion w v dir ow (init disk) = (res, s') →
  EvPrepareTarget ∈ trace s' →
  (∃ url text data,
     checksum v = Some url
     ∧ http_get w url = Some text
     ∧ fetch w (download v) = Downloaded data
     ∧ JsString.includes text (sha512_hex w data) = true
     ∧ warnings s' = [])
  ∨ warnings s' = [noChecksumWarning v].
Proof.
  intros Hrun Hreached. revert Hreached. wp_run Hrun. wp_walk.
  all: intros Hreached; try absurd_elem Hreached; clear Hreached; simpl.
  all: repeat match goal with
       | H : negb _ = false |- _ => apply negb_false_iff in H
       end.
  all: first [ by right | left; eauto 10 ].
Qed.

(** ** Installing twice *)

(** What a run that resolved leaves for the next one. *)
Lemma resolved_run_facts w v dir ow disk r s1 :
  installVersion w v dir ow (init disk) = (inr r, s1) →
  Fs.exists_ (fs s1) dir = true
  ∧ Fs.is_directory (fs s1) dir = inr true
  ∧ Fs.exists_ (fs s1) (installSubDir v dir) = true
  ∧ JsString.truthy (download v) = true
  ∧ manifest_reachable w v
  ∧ r = (set_disksize v (folder_size w (fs s1 !! installSubDir v dir)),
         installSubDir v dir).
Proof.
  intros Hrun.
  assert (∀ res, installVersion w v dir ow (init disk) = (res, s1) →
            res = inr r →
            Fs.exists_ (fs s1) dir = true
            ∧ Fs.is_directory (fs s1) dir = inr true
            ∧ Fs.exists_ (fs s1) (installSubDir v dir) = true
            ∧ JsString.truthy (download v) = true
            ∧ manifest_reachable w v
            ∧ r = (set_disksize v
                     (folder_size w (fs s1 !! installSubDir v dir)),
                   installSubDir v dir)) as H; [|by eapply H].
  clear Hrun. intros res Hrun.
  pose proof (backupDir_fresh v dir) as Hne.
  pose proof (installDir_not_tarFile v dir) as Hd1.
  pose proof (installDir_not_installSubDir v dir) as Hd2.
  pose proof (installDir_not_backupDir v dir) as Hd3.
  destruct ow, (can_unlink w (tarFile v dir)) eqn:Hcan.
  all: wp_run Hrun; wp_walk.
  all: intros Hr; try discriminate Hr; injection Hr as <-; simpl.
  all: repeat match goal with
       | H : negb _ = false |- _ => apply negb_false_iff in H
       | H : Fs.is_directory _ _ = inr ?b, Hb : ?b = true |- _ =>
           rewrite Hb in H; clear Hb
       | H : Fs.is_directory _ _ = inr true |- _ =>
           apply is_directory_inr_true in H as [? ?]
       | H : Fs.rename _ _ _ = inr _ |- _ =>
           apply rename_inr in H as (? & ? & ->)
       | H : Fs.mkdir _ _ = inr _ |- _ => apply mkdir_inr in H as (? & ->)
       | H : Fs.rm _ _ = inr _ |- _ => apply rm_inr in H as (_ & ->)
       | H : _ && _ = true |- _ => apply andb_true_iff in H as [? ?]
       end.
  all: split;
    [ unfold Fs.exists_; fs_lookup;
      match goal with H : _ !! _ = Some (Dir _) |- _ => by rewrite H end |].
  all: split;
    [ unfold Fs.is_directory; fs_lookup;
      match goal with H : _ !! _ = Some (Dir _) |- _ => by rewrite H end |].
  all: split;
    [ first [ assumption
            | unfold Fs.exists_;
              try (erewrite unlink_keeps_dir; [reflexivity|]);
              by fs_lookup ] |].
  all: split; [assumption|].
  all: split; [|reflexivity].
  all: intros url' Hsum Hurl.
  all: match goal with
       | H1 : checksum ?r = _, H2 : checksum ?r = _ |- _ =>
           rewrite H1 in H2; simplify_eq
       end; eauto.
  all: match goal with
       | Ht : JsString.truthy ?u = false, Hu : JsString.truthy ?u = true |- _ =>
           rewrite Ht in Hu; discriminate Hu
       end.
Qed.

(** As [manifest_absurd], for a record that was rebuilt. *)
Ltac manifest_absurd' :=
  match goal with
  | Hm : manifest_reachable ?w _,
    Hsum : checksum _ = Some ?url,
    Hurl : JsString.truthy ?url = true,
    Hno : http_get ?w ?url = None |- _ =>
      exfalso; destruct (Hm url Hsum Hurl) as [? ?]; congruence
  end.

(** X21.  After a run that resolved, a second run without [overwrite],
    given the record the first one returned, starts no download and
    leaves the disk as the first run left it.  When its manifest request
    (made when the record has a checksum URL) succeeds, it resolves with
    the same path and the record with the size measured now, which is
    the result of the first run when the measure has not changed; when
    the request is refused, it rejects with the error of the request. *)
Theorem second_run_reuses_install w1 w2 v dir ow disk r s1 res s2 :
  installVersion w1 v dir ow (init disk) = (inr r, s1) →
  installVersion w2 r.1 dir false (init (fs s1)) = (res, s2) →
  fs s2 = fs s1
  ∧ (EvDownload ∉ trace s2)
  ∧ (manifest_reachable w2 r.1 →
     res = inr (set_disksize r.1 (folder_size w2 (fs s1 !! r.2)), r.2))
  ∧ (manifest_reachable w2 r.1 →
     folder_size w2 (fs s1 !! r.2) = disksize r.1 →
     res = inr r)
  ∧ (∀ url, checksum r.1 = Some url → JsString.truthy url = true →
            http_get w2 url = None → res = inl (HttpError url)).
Proof.
  intros Hfirst Hsecond.
  destruct (resolved_run_facts _ _ _ _ _ _ _ Hfirst)
    as (Hdir_exists & Hdir_is & Hsub_exists & Hlink & _ & ->).
  simpl in Hsecond. simpl.
  assert (Fs.exists_ (fs s1)
            (installSubDir
               (set_disksize v (folder_size w1 (fs s1 !! installSubDir v dir)))
               dir) = true) as Hsub' by exact Hsub_exists.
  assert (JsString.truthy
            (download
               (set_disksize v (folder_size w1 (fs s1 !! installSubDir v dir))))
          = true) as Hlink' by exact Hlink.
  clear Hfirst Hsub_exists Hlink.
  set (v' := set_disksize v (folder_size w1 (fs s1 !! installSubDir v dir)))
    in *.
  wp_run Hsecond. wp_walk.
  all: split; [reflexivity|].
  all: split; [prove_not_elem|].
  all: match goal with x := set_disksize _ _ |- _ => subst x end.
  all: cbn [checksum set_disksize] in *.
  all: repeat match goal with
       | |- context [installSubDir (set_disksize ?r ?n) ?d] =>
           change (installSubDir (set_disksize r n) d)
             with (installSubDir r d)
       end.
  all: split; [intros Hmanifest; first [reflexivity | manifest_absurd']|].
  all: split;
    [ intros Hmanifest Hsize;
      first [manifest_absurd' | by rewrite Hsize] |].
  all: intros url' Hsum Hurl Hget.
  all: match goal with
       | H1 : checksum ?r = _, H2 : checksum ?r = _ |- _ =>
           rewrite H1 in H2; simplify_eq
       end.
  all: first [ reflexivity
             | congruence
             | match goal with
               | Ht : JsString.truthy ?u = false,
                 Hu : JsString.truthy ?u = true |- _ =>
                   rewrite Ht in Hu; discriminate Hu
               end ].
Qed.

(** ** Progress *)

(** X22.  What [getProgress] hands to the callback: the state is
    [downloading], the percentage and the speed are passed on as they
    came, and the estimate is the text [calculateEta] gave for the bytes,
    the speed and the size of the record, passed on unchanged; only when
    that gave nothing or an empty text it is [00:00:00], so the estimate
    is never empty. *)
Theorem getProgress_eta_never_empty {number : Type}
    (calculateEta : number → number → nat → option string)
    v (downloadedBytes downloadSpeed progress : number) :
  let report := getProgress calculateEta v downloadedBytes downloadSpeed
                  progress in
  let estimate := calculateEta downloadedBytes downloadSpeed (disksize v) in
  report.1 = "downloading"
  ∧ percentage report.2 = progress
  ∧ avgSpeed report.2 = downloadSpeed
  ∧ (∀ text, estimate = Some text → text ≠ "" → eta report.2 = text)
  ∧ (estimate = None ∨ estimate = Some "" → eta report.2 = "00:00:00")
  ∧ eta report.2 ≠ "".
Proof.
  unfold getProgress. simpl.
  destruct (calculateEta downloadedBytes downloadSpeed (disksize v))
    as [[|c text]|]; simpl.
  all: repeat split; try done.
  all: first [ by intros text' [= <-] | by intros [|] ].
Qed.

(** ** The further theorems at concrete runs *)

Lemma resolved_run_returns_install_witness :
  let run := installVersion Scenario.fine Scenario.summed Scenario.installDir
               false (init Scenario.emptyTarget) in
  run.1 = inr (set_disksize Scenario.summed 1, "/tools/Wine-GE-8")
  ∧ is_Some (fs run.2 !! "/tools/Wine-GE-8").
Proof.
  intros run.
  destruct (resolved_run_returns_install Scenario.fine Scenario.summed
              Scenario.installDir false Scenario.emptyTarget
              (set_disksize Scenario.summed 1, "/tools/Wine-GE-8") run.2)
    as (_ & Hthere).
  - vm_compute. reflexivity.
  - split; [vm_compute; reflexivity | exact Hthere].
Defined.


Lemma fresh_run_leaves_backup_path_witness :
  let run := installVersion Scenario.extractFailsMidway Scenario.plain
               Scenario.installDir false (init Scenario.emptyTarget) in
  fs run.2 !! backupDir Scenario.plain Scenario.installDir = None.
Proof.
  intros run.
  rewrite (fresh_run_leaves_backup_path Scenario.extractFailsMidway
             Scenario.plain Scenario.installDir Scenario.emptyTarget
             run.1 run.2).
  - vm_compute. reflexivity.
  - apply surjective_pairing.
  - vm_compute. discriminate.
Defined.

Lemma no_change_before_download_witness :
  let run := installVersion Scenario.fine Scenario.summed "/nowhere" false
               (init Scenario.emptyTarget) in
  fs run.2 = Scenario.emptyTarget.
Proof.
  intros run.
  apply (no_change_before_download Scenario.fine Scenario.summed "/nowhere"
           false Scenario.emptyTarget run.1 run.2).
  - apply surjective_pairing.
  - vm_compute. intros Hin.
    repeat (apply elem_of_cons in Hin as [Hin|Hin]; [discriminate Hin|]).
    by apply elem_of_nil in Hin.
Defined.

Lemma fresh_install_succeeds_witness :
  let run := installVersion Scenario.fine Scenario.summed Scenario.installDir
               false (init Scenario.emptyTarget) in
  run.1 = inr (set_disksize Scenario.summed 1, "/tools/Wine-GE-8")
  ∧ fs run.2 !! "/tools/Wine-GE-8" = Some (Dir [("bin/wine", "ELF")])
  ∧ fs run.2 !! "/tools/wine-ge-8.tar.xz" = None.
Proof.
  intros run.
  apply (fresh_install_succeeds Scenario.fine Scenario.summed
           Scenario.installDir Scenario.emptyTarget run.1 run.2 []
           "ARCHIVE" [("bin/wine", "ELF")]).
  - apply surjective_pairing.
  - vm_compute. reflexivity.
  - vm_compute. reflexivity.
  - vm_compute. reflexivity.
  - vm_compute. reflexivity.
  - vm_compute. reflexivity.
  - intros url _ _. eexists. split; [reflexivity|].
    intros _. vm_compute. reflexivity.
  - vm_compute. reflexivity.
  - vm_compute. reflexivity.
  - vm_compute. discriminate.
Defined.

Lemma overwrite_install_replaces_witness :
  let run := installVersion Scenario.fine Scenario.summed Scenario.installDir
               true (init Scenario.installed) in
  run.1 = inr (set_disksize Scenario.summed 1, "/tools/Wine-GE-8")
  ∧ fs run.2 !! "/tools/Wine-GE-8" = Some (Dir [("bin/wine", "ELF")])
  ∧ fs run.2 !! "/tools/Wine-GE-8_backup" = None
  ∧ fs run.2 !! "/tools/wine-ge-8.tar.xz" = None.
Proof.
  intros run.
  apply (overwrite_install_replaces Scenario.fine Scenario.summed
           Scenario.installDir Scenario.installed run.1 run.2 []
           Scenario.oldInstall "ARCHIVE" [("bin/wine", "ELF")]).
  - apply surjective_pairing.
  - vm_compute. reflexivity.
  - vm_compute. reflexivity.
  - vm_compute. reflexivity.
  - vm_compute. reflexivity.
  - vm_compute. reflexivity.
  - intros url _ _. eexists. split; [reflexivity|].
    intros _. vm_compute. reflexivity.
  - vm_compute. reflexivity.
  - vm_compute. reflexivity.
  - vm_compute. discriminate.
  - vm_compute. discriminate.
Defined.

Lemma overwrite_without_install_fails_witness :
  let run := installVersion Scenario.fine Scenario.plain Scenario.installDir
               true (init Scenario.emptyTarget) in
  run.1 = inl (FsError ENOENT "rename" "/tools/Wine-GE-8")
  ∧ fs run.2 !! "/tools/wine-ge-8.tar.xz" = Some (File "ARCHIVE").
Proof.
  intros run.
  destruct (overwrite_without_install_fails Scenario.fine Scenario.plain
              Scenario.installDir Scenario.emptyTarget run.1 run.2)
    as (_ & Hstuck).
  - apply surjective_pairing.
  - vm_compute. reflexivity.
  - vm_compute. discriminate.
  - destruct Hstuck as (data & Hfetch & Hres & Harchive & _).
    + vm_compute. repeat constructor.
    + injection Hfetch as <-. split; [exact Hres|].
      apply Harchive. vm_compute. reflexivity.
Defined.

Lemma overwrite_blocked_by_stale_backup_witness :
  let run := installVersion Scenario.fine Scenario.plain Scenario.installDir
               true (init ScenarioMore.cluttered) in
  run.1 = inl (FsError ENOTEMPTY "rename" "/tools/Wine-GE-8")
  ∧ fs run.2 !! "/tools/Wine-GE-8" = Some Scenario.oldInstall
  ∧ fs run.2 !! "/tools/Wine-GE-8_backup" = Some ScenarioMore.staleBackup
  ∧ Fs.is_file (fs run.2) "/tools/wine-ge-8.tar.xz" = true.
Proof.
  intros run.
  apply (overwrite_blocked_by_stale_backup Scenario.fine Scenario.plain
           Scenario.installDir ScenarioMore.cluttered run.1 run.2
           [("marker", "old")] ("marker", "older") []).
  - apply surjective_pairing.
  - vm_compute. repeat constructor.
  - vm_compute. reflexivity.
  - vm_compute. reflexivity.
  - vm_compute. discriminate.
  - vm_compute. discriminate.
Defined.

Lemma invalid_target_rejected_witness :
  let run := installVersion Scenario.fine Scenario.summed "/nowhere" false
               (init Scenario.emptyTarget) in
  run.1 = inl (InstallDirMissing "/nowhere").
Proof.
  intros run.
  destruct (invalid_target_rejected Scenario.fine Scenario.summed "/nowhere"
              false Scenario.emptyTarget run.1 run.2) as (Hmissing & _).
  - apply surjective_pairing.
  - intros url _ _. by eexists.
  - apply Hmissing. vm_compute. reflexivity.
Defined.

Lemma download_failure_cleans_up_witness :
  let run := installVersion ScenarioMore.downloadFails Scenario.plain
               Scenario.installDir true (init Scenario.installed) in
  run.1 = inl (DownloadFailed "Wine-GE-8" "Error: read ECONNRESET")
  ∧ fs run.2 !! "/tools/Wine-GE-8" = Some Scenario.oldInstall.
Proof.
  intros run.
  destruct (download_failure_cleans_up ScenarioMore.downloadFails
              Scenario.plain Scenario.installDir true Scenario.installed
              run.1 run.2 "Error: read ECONNRESET" (Some "ARCH"))
    as (Hres & _ & Hframe).
  - apply surjective_pairing.
  - vm_compute. repeat constructor.
  - vm_compute. reflexivity.
  - vm_compute. reflexivity.
  - split; [exact Hres|].
    rewrite Hframe; [vm_compute; reflexivity | vm_compute; discriminate].
Defined.

Lemma fresh_extraction_failure_cleans_up_witness :
  let run := installVersion Scenario.extractFailsAtOnce Scenario.plain
               Scenario.installDir false (init Scenario.emptyTarget) in
  run.1 = inl (UnzipFailed "wine-ge-8.tar.xz"
                 "Archive type zip not supported!")
  ∧ fs run.2 !! installSubDir Scenario.plain Scenario.installDir = None
  ∧ fs run.2 !! tarFile Scenario.plain Scenario.installDir = None.
Proof.
  intros run.
  destruct (fresh_extraction_failure_cleans_up Scenario.extractFailsAtOnce
              Scenario.plain Scenario.installDir Scenario.emptyTarget
              run.1 run.2 "Archive type zip not supported!" None)
    as (Hres & Hinstall & Harchive & _).
  - apply surjective_pairing.
  - vm_compute. repeat constructor.
  - vm_compute. reflexivity.
  - vm_compute. reflexivity.
  - vm_compute. reflexivity.
  - vm_compute. discriminate.
  - split; [|split; [exact Hinstall | exact Harchive]].
    rewrite Hres. vm_compute. reflexivity.
Defined.

Lemma fresh_extraction_abort_cleans_up_witness :
  let run := installVersion ScenarioMore.extractAbortedAtOnce Scenario.plain
               Scenario.installDir false (init Scenario.emptyTarget) in
  (∃ e, run.1 = inl e ∧ error_name e = "AbortError")
  ∧ fs run.2 !! installSubDir Scenario.plain Scenario.installDir = None
  ∧ fs run.2 !! tarFile Scenario.plain Scenario.installDir = None.
Proof.
  intros run.
  destruct (fresh_extraction_abort_cleans_up
              ScenarioMore.extractAbortedAtOnce Scenario.plain
              Scenario.installDir Scenario.emptyTarget run.1 run.2
              "AbortError: The operation was aborted" None)
    as (Hres & Hinstall & Harchive & _).
  - apply surjective_pairing.
  - vm_compute. repeat constructor.
  - vm_compute. reflexivity.
  - vm_compute. reflexivity.
  - vm_compute. reflexivity.
  - vm_compute. discriminate.
  - split; [exact Hres|]. split; [exact Hinstall | exact Harchive].
Defined.

Lemma rejection_never_escapes_witness :
  let failed := installVersion ScenarioMore.downloadFails Scenario.plain
                  Scenario.installDir false (init Scenario.emptyTarget) in
  let stuck := installVersion Scenario.extractFailsAtOnce Scenario.plain
                 Scenario.installDir true (init Scenario.installed) in
  failed.1 = inl (DownloadFailed "Wine-GE-8" "Error: read ECONNRESET")
  ∧ stuck.1 ≠ inl (Rejection "Archive type zip not supported!").
Proof.
  intros failed stuck. split.
  - destruct (rejection_never_escapes ScenarioMore.downloadFails
                Scenario.plain Scenario.installDir false
                Scenario.emptyTarget failed.1 failed.2)
      as (_ & Hfetch & _); [apply surjective_pairing|].
    apply (Hfetch "Error: read ECONNRESET" (Some "ARCH")).
    + vm_compute. repeat constructor.
    + vm_compute. reflexivity.
  - destruct (rejection_never_escapes Scenario.extractFailsAtOnce
                Scenario.plain Scenario.installDir true Scenario.installed
                stuck.1 stuck.2)
      as (Hraw & _); [apply surjective_pairing|].
    apply Hraw.
Defined.

Lemma error_has_cause_witness :
  let run := installVersion Scenario.manifestWrong Scenario.summed
               Scenario.installDir false (init Scenario.emptyTarget) in
  run.1 = inl ChecksumFailed
  ∧ ∃ url text data,
      checksum Scenario.summed = Some url
      ∧ http_get Scenario.manifestWrong url = Some text
      ∧ JsString.truthy text = true
      ∧ fetch Scenario.manifestWrong (download Scenario.summed)
        = Downloaded data
      ∧ JsString.includes text (sha512_hex Scenario.manifestWrong data)
        = false.
Proof.
  intros run.
  destruct (error_has_cause Scenario.manifestWrong Scenario.summed
              Scenario.installDir false Scenario.emptyTarget run.1 run.2)
    as (_ & _ & _ & Hsum).
  - apply surjective_pairing.
  - assert (run.1 = inl ChecksumFailed) as Hres
      by (vm_compute; reflexivity).
    split; [exact Hres | exact (Hsum Hres)].
Defined.

Lemma verified_or_warned_witness :
  let run := installVersion Scenario.manifestEmpty Scenario.summed
               Scenario.installDir false (init Scenario.emptyTarget) in
  warnings run.2 = [noChecksumWarning Scenario.summed].
Proof.
  intros run.
  destruct (verified_or_warned Scenario.manifestEmpty Scenario.summed
              Scenario.installDir false Scenario.emptyTarget run.1 run.2)
    as [(url & text & data & _ & Hget & Hfetch & Hinc & _)|Hwarned].
  - apply surjective_pairing.
  - vm_compute. repeat constructor.
  - exfalso. injection Hget as <-. injection Hfetch as <-.
    vm_compute in Hinc. discriminate Hinc.
  - exact Hwarned.
Defined.

Lemma second_run_reuses_install_witness :
  let first := installVersion Scenario.fine Scenario.summed
                 Scenario.installDir true (init Scenario.installed) in
  let record := set_disksize Scenario.summed 1 in
  let again := installVersion Scenario.fine record Scenario.installDir
                 false (init (fs first.2)) in
  let offline := installVersion Scenario.manifestUnreachable record
                   Scenario.installDir false (init (fs first.2)) in
  again.1 = inr (record, "/tools/Wine-GE-8")
  ∧ fs again.2 = fs first.2
  ∧ offline.1
    = inl (HttpError "https://example.org/releases/wine-ge-8.sha512sum")
  ∧ fs offline.2 = fs first.2.
Proof.
  intros first record again offline.
  assert (installVersion Scenario.fine Scenario.summed Scenario.installDir
            true (init Scenario.installed)
          = (inr (record, "/tools/Wine-GE-8"), first.2)) as Hfirst
    by (vm_compute; reflexivity).
  destruct (second_run_reuses_install Scenario.fine Scenario.fine
              Scenario.summed Scenario.installDir true Scenario.installed
              (record, "/tools/Wine-GE-8") first.2 again.1 again.2)
    as (Hfs & _ & _ & Hsame & _);
    [exact Hfirst | apply surjective_pairing |].
  destruct (second_run_reuses_install Scenario.fine
              Scenario.manifestUnreachable
              Scenario.summed Scenario.installDir true Scenario.installed
              (record, "/tools/Wine-GE-8") first.2 offline.1 offline.2)
    as (Hfs' & _ & _ & _ & Hrefused);
    [exact Hfirst | apply surjective_pairing |].
  split; [|split; [exact Hfs|split; [|exact Hfs']]].
  - apply Hsame; [intros url _ _; by eexists | vm_compute; reflexivity].
  - apply Hrefused; vm_compute; reflexivity.
Defined.
